(** * KDeclarative: QML bindings over KConfig, KGlobalAccel and KI18n

    A shallow embedding of three adapters of the library and the proofs of
    their specified behaviour:

    - [TranslationContext]  (qmlcontrols/kquickcontrols/private/translationcontext.cpp)
    - [KeySequenceHelper]   (qmlcontrols/kquickcontrols/private/keysequencehelper.cpp)
    - [ConfigPropertyMap]   (kdeclarative/configpropertymap.cpp)

    The host framework (Qt, KConfig, KGlobalAccel, KI18n, the message boxes)
    is not part of these sources.  It enters the development as an interface:
    a record of host services or a type class, over which every theorem is
    universally quantified.  Small executable implementations of the
    interfaces are given so that the adapters can be run on concrete inputs. *)

From Stdlib Require Import ZArith Ascii String.
From stdpp Require Import base option list strings pretty gmap.

#[local] Set Warnings "-clear-no-such-hyp".

Local Open Scope string_scope.
Local Open Scope list_scope.
Local Open Scope Z_scope.

(** ** Strings of the host toolkit *)

(** A [QString] is either null (default constructed) or holds text; the
    empty text is not null. *)
Definition QString : Type := option string.

Definition isNull (s : QString) : bool :=
  match s with None => true | Some _ => false end.

(** [QString::isEmpty]: a null string is empty as well. *)
Definition isEmpty (s : QString) : bool :=
  match s with
  | None => true
  | Some EmptyString => true
  | Some (String _ _) => false
  end.

(** [s.toUtf8().constData()]: the null string yields the empty C string. *)
Definition constData (s : QString) : string :=
  match s with None => EmptyString | Some t => t end.

Definition newline : string := String "010"%char EmptyString.
Definition dquote : string := String "034"%char EmptyString.

(** [QString::contains] for a literal needle. *)
Fixpoint contains (needle hay : string) : bool :=
  String.prefix needle hay ||
  match hay with
  | EmptyString => false
  | String _ rest => contains needle rest
  end.

(* ================================================================== *)
(** ** translationcontext.cpp *)

Module TranslationContext.

(** An argument handed to [KLocalizedString::subs]: the overload taking a
    [QString] or the one taking an [int]. *)
Inductive SubsArg : Type :=
| SubsString (s : string)
| SubsInt (n : Z).

(** A [KLocalizedString] under construction: the texts given to
    [ki18nd], [ki18ndc], [ki18ndp] or [ki18ndcp] and the arguments
    substituted so far, the first one standing for [%1]. *)
Record KLocalizedString : Type := mkKLS {
  kls_domain : string;
  kls_context : option string;
  kls_text : string;
  kls_plural : option string;
  kls_args : list SubsArg
}.

Definition ki18nd (domain text : string) : KLocalizedString :=
  mkKLS domain None text None [].
Definition ki18ndc (domain context text : string) : KLocalizedString :=
  mkKLS domain (Some context) text None [].
Definition ki18ndp (domain singular plural : string) : KLocalizedString :=
  mkKLS domain None singular (Some plural) [].
Definition ki18ndcp (domain context singular plural : string) : KLocalizedString :=
  mkKLS domain (Some context) singular (Some plural) [].

(** [trMessage.subs(a)]: the argument takes the next free position. *)
Definition subs (k : KLocalizedString) (a : SubsArg) : KLocalizedString :=
  mkKLS (kls_domain k) (kls_context k) (kls_text k) (kls_plural k)
        (kls_args k ++ [a]).

(** What a call hands back: the returned string and the lines written
    with [qWarning]. *)
Record Reply : Type := mkReply {
  returned : QString;
  warnings : list string
}.

Section Calls.
(** The two library functions the calls rely on: [QString::toInt]
    ([None] when the conversion reports [ok == false]) and
    [KLocalizedString::toString]. *)
Variable toInt : string -> option Z.
Variable toString : KLocalizedString -> string.

(** [if (!param.isNull()) trMessage = trMessage.subs(param);] *)
Definition subsParam (trMessage : KLocalizedString) (param : QString)
  : KLocalizedString :=
  if negb (isNull param)
  then subs trMessage (SubsString (constData param))
  else trMessage.

(** The first parameter of the plural calls:
    [int num = param1.toInt(&ok); if (ok) subs(num) else subs(param1)]. *)
Definition subsCount (trMessage : KLocalizedString) (param1 : QString)
  : KLocalizedString :=
  if negb (isNull param1)
  then match toInt (constData param1) with
       | Some num => subs trMessage (SubsInt num)
       | None => subs trMessage (SubsString (constData param1))
       end
  else trMessage.

Definition i18n (m_domain message
                 param1 param2 param3 param4 param5
                 param6 param7 param8 param9 param10 : QString) : Reply :=
  if isNull message
  then mkReply None ["i18n() needs at least one parameter"]
  else
    let trMessage := ki18nd (constData m_domain) (constData message) in
    let trMessage := subsParam trMessage param1 in
    let trMessage := subsParam trMessage param2 in
    let trMessage := subsParam trMessage param3 in
    let trMessage := subsParam trMessage param4 in
    let trMessage := subsParam trMessage param5 in
    let trMessage := subsParam trMessage param6 in
    let trMessage := subsParam trMessage param7 in
    let trMessage := subsParam trMessage param8 in
    let trMessage := subsParam trMessage param9 in
    let trMessage := subsParam trMessage param10 in
    mkReply (Some (toString trMessage)) [].

Definition i18nc (m_domain context message
                  param1 param2 param3 param4 param5
                  param6 param7 param8 param9 param10 : QString) : Reply :=
  if isNull context || isNull message
  then mkReply None ["i18nc() needs at least two arguments"]
  else
    let trMessage :=
      ki18ndc (constData m_domain) (constData context) (constData message) in
    let trMessage := subsParam trMessage param1 in
    let trMessage := subsParam trMessage param2 in
    let trMessage := subsParam trMessage param3 in
    let trMessage := subsParam trMessage param4 in
    let trMessage := subsParam trMessage param5 in
    let trMessage := subsParam trMessage param6 in
    let trMessage := subsParam trMessage param7 in
    let trMessage := subsParam trMessage param8 in
    let trMessage := subsParam trMessage param9 in
    let trMessage := subsParam trMessage param10 in
    mkReply (Some (toString trMessage)) [].

Definition i18np (m_domain singular plural
                  param1 param2 param3 param4 param5
                  param6 param7 param8 param9 param10 : QString) : Reply :=
  if isNull singular || isNull plural
  then mkReply None ["i18np() needs at least two arguments"]
  else
    let trMessage :=
      ki18ndp (constData m_domain) (constData singular) (constData plural) in
    let trMessage := subsCount trMessage param1 in
    let trMessage := subsParam trMessage param2 in
    let trMessage := subsParam trMessage param3 in
    let trMessage := subsParam trMessage param4 in
    let trMessage := subsParam trMessage param5 in
    let trMessage := subsParam trMessage param6 in
    let trMessage := subsParam trMessage param7 in
    let trMessage := subsParam trMessage param8 in
    let trMessage := subsParam trMessage param9 in
    let trMessage := subsParam trMessage param10 in
    mkReply (Some (toString trMessage)) [].

Definition i18ncp (m_domain context singular plural
                   param1 param2 param3 param4 param5
                   param6 param7 param8 param9 param10 : QString) : Reply :=
  if isNull context || isNull singular || isNull plural
  then mkReply None ["i18ncp() needs at least three arguments"]
  else
    let trMessage :=
      ki18ndcp (constData m_domain) (constData context)
               (constData singular) (constData plural) in
    let trMessage := subsCount trMessage param1 in
    let trMessage := subsParam trMessage param2 in
    let trMessage := subsParam trMessage param3 in
    let trMessage := subsParam trMessage param4 in
    let trMessage := subsParam trMessage param5 in
    let trMessage := subsParam trMessage param6 in
    let trMessage := subsParam trMessage param7 in
    let trMessage := subsParam trMessage param8 in
    let trMessage := subsParam trMessage param9 in
    let trMessage := subsParam trMessage param10 in
    mkReply (Some (toString trMessage)) [].
End Calls.

(** *** Vocabulary of the statements *)

(** The arguments that the parameters [ps] contribute when each is
    substituted unless it is null: the non-null ones, in order. *)
Definition paramArgs (ps : list QString) : list SubsArg :=
  omap (fun p : QString => SubsString <$> p) ps.

(** The argument that the first parameter of a plural call contributes. *)
Definition countArgs (toInt : string -> option Z) (param1 : QString)
  : list SubsArg :=
  match param1 with
  | None => []
  | Some p => match toInt p with
              | Some num => [SubsInt num]
              | None => [SubsString p]
              end
  end.

(** A call that refuses: it returns the null (hence empty) string and
    writes one warning. *)
Definition refusal (line : string) : Reply := mkReply None [line].

(** *** An executable host for the two library functions *)

Definition digitValue (c : ascii) : option Z :=
  let n := Z.of_nat (nat_of_ascii c) in
  if (48 <=? n) && (n <=? 57) then Some (n - 48) else None.

Fixpoint digitsValue (acc : Z) (s : string) : option Z :=
  match s with
  | EmptyString => Some acc
  | String c rest =>
      match digitValue c with
      | Some d => digitsValue (10 * acc + d) rest
      | None => None
      end
  end.

(** Modelled from the spec: [QString::toInt] belongs to the host toolkit.
    A decimal numeral with an optional sign that fits a 32-bit [int]
    parses as an integer; anything else does not. *)
Definition toIntDecimal (s : string) : option Z :=
  let parse (neg : bool) (body : string) : option Z :=
    match body with
    | EmptyString => None
    | _ => match digitsValue 0 body with
           | Some v =>
               let n := if neg then - v else v in
               if (-2147483648 <=? n) && (n <=? 2147483647)
               then Some n else None
           | None => None
           end
    end in
  match s with
  | String "-"%char rest => parse true rest
  | String "+"%char rest => parse false rest
  | _ => parse false s
  end.

Definition showArg (a : SubsArg) : string :=
  match a with
  | SubsString s => s
  | SubsInt n => pretty n
  end.

(** Replaces the placeholders [%1] .. [%9] by the arguments at those
    positions; a placeholder without argument is left as it is. *)
Fixpoint fillPlaceholders (args : list SubsArg) (text : string) : string :=
  match text with
  | EmptyString => EmptyString
  | String "%"%char (String d rest as tail) =>
      match digitValue d with
      | Some i =>
          match args !! (Z.to_nat (i - 1)) with
          | Some a => if 1 <=? i
                      then showArg a +:+ fillPlaceholders args rest
                      else String "%"%char (fillPlaceholders args tail)
          | None => String "%"%char (fillPlaceholders args tail)
          end
      | None => String "%"%char (fillPlaceholders args tail)
      end
  | String c rest => String c (fillPlaceholders args rest)
  end.

(** Modelled from the spec: [KLocalizedString::toString] belongs to the
    localization library.  This host has no catalog: the text is the
    source text, the plural text being chosen when the first argument is
    a number other than one, with positional substitution. *)
Definition toStringUntranslated (k : KLocalizedString) : string :=
  let text :=
    match kls_plural k, kls_args k with
    | Some plural, SubsInt n :: _ => if n =? 1 then kls_text k else plural
    | _, _ => kls_text k
    end in
  fillPlaceholders (kls_args k) text.

(** *** The domain property *)

(** [QString::operator==] compares the texts: a null string equals the
    empty one. *)
Definition qstringEq (a b : QString) : bool :=
  String.eqb (constData a) (constData b).

(** The signal of the translation context. *)
Inductive Signal : Type :=
| DomainChanged (domain : QString).

Definition domain (m_domain : QString) : QString := m_domain.

(** [setDomain]: the new member and the signals emitted. *)
Definition setDomain (domain m_domain : QString) : QString * list Signal :=
  if qstringEq m_domain domain then (m_domain, [])
  else (domain, [DomainChanged domain]).

End TranslationContext.

(* ================================================================== *)
(** ** keysequencehelper.cpp *)

Module KeySequenceHelper.

(** A key sequence is the list of its chords (at most four), each chord a
    key code combined with its modifiers. *)
Definition QKeySequence : Type := list Z.

Definition keySequenceIsEmpty (keySequence : QKeySequence) : bool :=
  match keySequence with [] => true | _ :: _ => false end.

(** Modelled from the spec: the [ShortcutType] flags are declared in
    keysequencehelper.h, which is not among the sources at hand; the two
    checks are distinct bits of one bitmask. *)
Definition StandardShortcuts : Z := 1.
Definition GlobalShortcuts : Z := 2.

(** [QFlags::testFlag]. *)
Definition testFlag (flags flag : Z) : bool :=
  (Z.land flags flag =? flag) && (negb (flag =? 0) || (flags =? flag)).

(** [flags & flag] used as a condition. *)
Definition andFlag (flags flag : Z) : bool :=
  negb (Z.land flags flag =? 0).

(** The three builds: [Q_OS_WIN], [Q_OS_DARWIN] and all the others. *)
Inductive Platform : Type := Windows | Darwin | Unix.

Record KGlobalShortcutInfo : Type := mkInfo {
  friendlyName : string;
  contextFriendlyName : string
}.

(** [KGlobalAccel::MatchType]. *)
Inductive MatchType : Type := Equal | Shadows | Shadowed.

(** The outcome of [KMessageBox::warningContinueCancel]. *)
Inductive ButtonCode : Type := Continue | Cancel.

(** [KStandardShortcut::StandardShortcut], [AccelNone] being zero. *)
Definition StandardShortcut : Type := N.
Definition AccelNone : StandardShortcut := 0%N.

(** The services of the host: the build, the two shortcut registries and
    the user, who answers the two modal prompts. *)
Record Host : Type := mkHost {
  platform : Platform;
  toString : QKeySequence -> string;
  toNativeText : QKeySequence -> string;
  find : QKeySequence -> StandardShortcut;
  label : StandardShortcut -> string;
  isGlobalShortcutAvailable : QKeySequence -> bool;
  globalShortcutsByKey : QKeySequence -> MatchType -> list KGlobalShortcutInfo;
  warningContinueCancel : string -> string -> string -> ButtonCode;
  promptStealShortcutSystemwide :
    list KGlobalShortcutInfo -> QKeySequence -> bool
}.

(** What a check does to the outside, in program order. *)
Inductive Action : Type :=
| FindStandard (seq : QKeySequence)
| AskAvailable (seq : QKeySequence)
| AskByKey (seq : QKeySequence) (type : MatchType)
| ErrorBox (message title : string)
| WarningBox (message title button : string)
| StealPrompt (others : list KGlobalShortcutInfo) (seq : QKeySequence)
| StealShortcutSystemwide (seq : QKeySequence).

(** A computation returns a value and the actions it performed. *)
Definition Run (A : Type) : Type := (A * list Action)%type.

Definition ret {A} (a : A) : Run A := (a, []).
Definition perform (act : Action) : Run unit := (tt, [act]).
Definition bind {A B} (m : Run A) (k : A -> Run B) : Run B :=
  let r := k (fst m) in (fst r, snd m ++ snd r).

Notation "'run' x <- m 'in' k" := (bind m (fun x => k))
  (at level 10, x name, m at level 100, k at level 200).
Notation "'exec' m 'then' k" := (bind m (fun _ => k))
  (at level 10, m at level 100, k at level 200).

Definition result {A} (m : Run A) : A := fst m.
Definition actions {A} (m : Run A) : list Action := snd m.

Definition nonEmpty {A} (l : list A) : bool :=
  match l with [] => false | _ :: _ => true end.

(** [i18n("Action '%1' in context '%2'\n").arg(...)] for every entry. *)
Definition actionLines (infos : list KGlobalShortcutInfo) : string :=
  foldl (fun message info =>
           message +:+ "Action '" +:+ friendlyName info +:+ "' in context '"
                   +:+ contextFriendlyName info +:+ "'" +:+ newline)
        EmptyString infos.

Definition shadowingMessage (seqText : string)
           (shadow shadowed : list KGlobalShortcutInfo) : string :=
  let message := EmptyString in
  let message :=
    if nonEmpty shadowed
    then message +:+ "The '" +:+ seqText
           +:+ "' key combination is shadowed by following global actions:"
           +:+ newline +:+ actionLines shadowed
    else message in
  let message :=
    if nonEmpty shadow
    then message +:+ "The '" +:+ seqText
           +:+ "' key combination shadows following global actions:"
           +:+ newline +:+ actionLines shadow
    else message in
  message.

Section Checks.
Variable h : Host.
Variable checkAgainstShortcutTypes : Z.

Definition checkAgainstStandardShortcuts : bool :=
  andFlag checkAgainstShortcutTypes StandardShortcuts.

Definition checkAgainstGlobalShortcuts : bool :=
  andFlag checkAgainstShortcutTypes GlobalShortcuts.

(** The text of the prompt of [stealStandardShortcut]. *)
Definition reassignMessage (std : StandardShortcut) (seq : QKeySequence)
  : string :=
  "The '" +:+ toNativeText h seq
    +:+ "' key combination is also used for the standard action "
    +:+ dquote +:+ label h std +:+ dquote
    +:+ " that some applications use." +:+ newline
    +:+ "Do you really want to use it as a global shortcut as well?".

Definition stealStandardShortcut (std : StandardShortcut)
           (seq : QKeySequence) : Run bool :=
  let title := "Conflict with Standard Application Shortcut" in
  let message := reassignMessage std seq in
  exec perform (WarningBox message title "Reassign") then
  match warningContinueCancel h message title "Reassign" with
  | Continue => ret true
  | Cancel => ret false
  end.

Definition conflictWithStandardShortcuts (keySequence : QKeySequence)
  : Run bool :=
  if negb checkAgainstStandardShortcuts then ret false
  else
    exec perform (FindStandard keySequence) then
    let ssc := find h keySequence in
    if negb (ssc =? AccelNone)%N
    then run stolen <- stealStandardShortcut ssc keySequence in
         if negb stolen then ret true else ret false
    else ret false.

(** [globalShortcutsByKey(keySequence, type)], the query recorded. *)
Definition lookupByKey (keySequence : QKeySequence) (type : MatchType)
  : Run (list KGlobalShortcutInfo) :=
  exec perform (AskByKey keySequence type) then
  ret (globalShortcutsByKey h keySequence type).

Definition conflictWithGlobalShortcuts (keySequence : QKeySequence)
  : Run bool :=
  match platform h with
  | Windows =>
      exec (if negb (GlobalShortcuts =? 0)
              && contains "F12" (toString h keySequence)
            then perform
                   (ErrorBox
                     ("The F12 key is reserved on Windows, so cannot be used for a global shortcut."
                        +:+ newline +:+ "Please choose another one.")
                     "Reserved Shortcut")
            else ret tt) then
      ret false
  | Darwin => ret false
  | Unix =>
      if negb (andFlag checkAgainstShortcutTypes GlobalShortcuts)
      then ret false
      else
        exec perform (AskAvailable keySequence) then
        run found <-
            (if negb (isGlobalShortcutAvailable h keySequence)
             then run others <- lookupByKey keySequence Equal in
                  run shadow <- lookupByKey keySequence Shadows in
                  run shadowed <- lookupByKey keySequence Shadowed in
                  ret (others, shadow, shadowed)
             else ret ([], [], [])) in
        let '(others, shadow, shadowed) := found in
        if nonEmpty shadow || nonEmpty shadowed
        then
          let title := "Global Shortcut Shadowing" in
          let message :=
            shadowingMessage (toString h keySequence) shadow shadowed in
          exec perform (ErrorBox message title) then
          ret true
        else
          run refused <-
              (if nonEmpty others
               then exec perform (StealPrompt others keySequence) then
                    ret (negb (promptStealShortcutSystemwide
                                 h others keySequence))
               else ret false) in
          if refused then ret true
          else
            exec perform (StealShortcutSystemwide keySequence) then
            ret false
  end.

Definition isKeySequenceAvailable (keySequence : QKeySequence)
  : Run bool :=
  if keySequenceIsEmpty keySequence then ret true
  else
    let conflict := false in
    run conflict <-
        (if testFlag checkAgainstShortcutTypes GlobalShortcuts
         then run c <- conflictWithGlobalShortcuts keySequence in
              ret (conflict || c)
         else ret conflict) in
    run conflict <-
        (if testFlag checkAgainstShortcutTypes StandardShortcuts
         then run c <- conflictWithStandardShortcuts keySequence in
              ret (conflict || c)
         else ret conflict) in
    ret (negb conflict).
End Checks.

(** *** Vocabulary of the statements *)

(** The user's answer to the prompt that [stealStandardShortcut] shows
    for the sequence [seq]. *)
Definition reassignAnswer (h : Host) (seq : QKeySequence) : ButtonCode :=
  warningContinueCancel h (reassignMessage h (find h seq) seq)
    "Conflict with Standard Application Shortcut" "Reassign".

(** The three registry queries made for an unavailable sequence. *)
Definition registryQueries (seq : QKeySequence) : list Action :=
  [AskAvailable seq; AskByKey seq Equal; AskByKey seq Shadows;
   AskByKey seq Shadowed].

(** *** An executable host

    The registries are given by the answers they return for every
    sequence; the user answers both prompts the same way each time. *)
Definition tableHost (os : Platform) (std : StandardShortcut)
           (available : bool)
           (others shadow shadowed : list KGlobalShortcutInfo)
           (reassign : ButtonCode) (steal : bool) : Host :=
  {| platform := os;
     toString := fun seq => foldl (fun s k => s +:+ pretty k +:+ ",") EmptyString seq;
     toNativeText := fun seq => foldl (fun s k => s +:+ pretty k +:+ ",") EmptyString seq;
     find := fun _ => std;
     label := fun s => pretty s;
     isGlobalShortcutAvailable := fun _ => available;
     globalShortcutsByKey := fun _ type =>
       match type with
       | Equal => others
       | Shadows => shadow
       | Shadowed => shadowed
       end;
     warningContinueCancel := fun _ _ _ => reassign;
     promptStealShortcutSystemwide := fun _ _ => steal |}.

Definition demoInfo : KGlobalShortcutInfo := mkInfo "Switch Window" "KWin".

(** *** The property of the helper *)

(** The constructor checks against both kinds of shortcuts. *)
Definition initialShortcutTypes : Z := Z.lor StandardShortcuts GlobalShortcuts.

Inductive HelperSignal : Type :=
| CheckAgainstShortcutTypesChanged.

(** [setCheckAgainstShortcutTypes]: the new member and the signals
    emitted; the [Q_EMIT] stands after the [if]. *)
Definition setCheckAgainstShortcutTypes (types current : Z)
  : Z * list HelperSignal :=
  let current := if negb (current =? types) then types else current in
  (current, [CheckAgainstShortcutTypesChanged]).

(** *** More vocabulary *)

(** The actions that put a dialog before the user. *)
Definition isDialog (act : Action) : bool :=
  match act with
  | ErrorBox _ _ | WarningBox _ _ _ | StealPrompt _ _ => true
  | _ => false
  end.

(** The actions that touch the registry of global shortcuts. *)
Definition isGlobalAction (act : Action) : bool :=
  match act with
  | AskAvailable _ | AskByKey _ _ | ErrorBox _ _ | StealPrompt _ _
  | StealShortcutSystemwide _ => true
  | _ => false
  end.

(** The actions of the check against the standard shortcuts. *)
Definition isStandardAction (act : Action) : bool :=
  match act with
  | FindStandard _ | WarningBox _ _ _ => true
  | _ => false
  end.

(** The text of the box shown for [F12] on Windows. *)
Definition reservedMessage : string :=
  "The F12 key is reserved on Windows, so cannot be used for a global shortcut."
    +:+ newline +:+ "Please choose another one.".

(** A host that names every sequence [text]. *)
Definition namedHost (os : Platform) (text : string) (std : StandardShortcut)
           (reassign : ButtonCode) : Host :=
  {| platform := os;
     toString := fun _ => text;
     toNativeText := fun _ => text;
     find := fun _ => std;
     label := fun s => pretty s;
     isGlobalShortcutAvailable := fun _ => true;
     globalShortcutsByKey := fun _ _ => [];
     warningContinueCancel := fun _ _ _ => reassign;
     promptStealShortcutSystemwide := fun _ _ => true |}.

End KeySequenceHelper.

(* ================================================================== *)
(** ** configpropertymap.cpp *)

Module ConfigPropertyMap.

(** The values a script hands over, and the variants stored in the map
    and in the configuration items. *)
Inductive QJSValue : Type :=
| JSUndefined
| JSBool (b : bool)
| JSNumber (n : Z)
| JSString (s : string).

Inductive QVariant : Type :=
| Invalid
| VBool (b : bool)
| VInt (n : Z)
| VString (s : string)
| VJSValue (js : QJSValue).

#[global] Instance QJSValue_eq_dec : EqDecision QJSValue.
Proof. solve_decision. Defined.
#[global] Instance QVariant_eq_dec : EqDecision QVariant.
Proof. solve_decision. Defined.

(** [QJSValue::toVariant]. *)
Definition toVariant (js : QJSValue) : QVariant :=
  match js with
  | JSUndefined => Invalid
  | JSBool b => VBool b
  | JSNumber n => VInt n
  | JSString s => VString s
  end.

(** [KConfigBase::WriteConfigFlags], as far as the bridge sets them. *)
Inductive WriteConfigFlag : Type := Normal | Notify.

(** The part of [KCoreConfigSkeleton] and [KConfigSkeletonItem] the bridge
    calls.  [Skel] is the state of the configuration object, [Item] the
    handle of one of its items (the [KConfigSkeletonItem *] of the
    source).  [save] also tells whether it emitted [configChanged]. *)
Class KCoreConfigSkeleton (Skel Item : Type) : Type := {
  items : Skel -> list Item;
  findItem : Skel -> string -> option Item;
  key : Skel -> Item -> string;
  property : Skel -> Item -> QVariant;
  itemIsImmutable : Skel -> Item -> bool;
  setWriteFlags : Item -> WriteConfigFlag -> Skel -> Skel;
  setProperty : Item -> QVariant -> Skel -> Skel;
  save : Skel -> Skel * bool;
  read : Skel -> Skel
}.

(** The keys of the items, in the order of [items()]. *)
Definition itemKeys `{KCoreConfigSkeleton Skel Item} (c : Skel) : list string :=
  key c <$> items c.

(** Signals delivered and calls made on the configuration, oldest first. *)
Inductive Event (Item : Type) : Type :=
| ValueChanged (k : string) (value : QVariant)
| ConfigChanged
| CallSetWriteFlags (item : Item) (flag : WriteConfigFlag)
| CallSetProperty (item : Item) (value : QVariant)
| CallSave
| CallRead.
Arguments ValueChanged {Item} k value.
Arguments ConfigChanged {Item}.
Arguments CallSetWriteFlags {Item} item flag.
Arguments CallSetProperty {Item} item value.
Arguments CallSave {Item}.
Arguments CallRead {Item}.

(** The [valueChanged] signals among the events, as (key, value). *)
Definition valueChanges {Item} (l : list (Event Item))
  : list (string * QVariant) :=
  omap (fun e => match e with
                 | ValueChanged k v => Some (k, v)
                 | _ => None
                 end) l.

(** The object: the contents of the [QQmlPropertyMap] it derives from, the
    members of [ConfigPropertyMapPrivate] ([config] is the [QPointer],
    [None] when null), and the events so far. *)
Record Bridge (Skel Item : Type) : Type := mkBridge {
  pmap : gmap string QVariant;
  config : option Skel;
  updatingConfigValue : bool;
  autosave : bool;
  notify : bool;
  events : list (Event Item)
}.
Arguments mkBridge {Skel Item}.
Arguments pmap {Skel Item}.
Arguments config {Skel Item}.
Arguments updatingConfigValue {Skel Item}.
Arguments autosave {Skel Item}.
Arguments notify {Skel Item}.
Arguments events {Skel Item}.

(** How a call ends: it returns, it dereferences a null pointer, or the
    signals nest deeper than the depth allowed for the run. *)
Inductive Result (A : Type) : Type :=
| Done (a : A)
| NullPointerDereference
| TooDeep.
Arguments Done {A} a.
Arguments NullPointerDereference {A}.
Arguments TooDeep {A}.

#[global] Instance Result_ret : MRet Result := fun A a => Done a.
#[global] Instance Result_bind : MBind Result := fun A B k m =>
  match m with
  | Done a => k a
  | NullPointerDereference => NullPointerDereference
  | TooDeep => TooDeep
  end.

Inductive LoadConfigOption : Type :=
| DontEmitValueChanged
| EmitValueChanged.

Section Members.
Context {Skel Item : Type} `{!KCoreConfigSkeleton Skel Item}.

Local Abbreviation State := (Bridge Skel Item).

Definition withPmap (m : gmap string QVariant) (st : State) : State :=
  mkBridge m (config st) (updatingConfigValue st) (autosave st)
           (notify st) (events st).
Definition withConfig (c : option Skel) (st : State) : State :=
  mkBridge (pmap st) c (updatingConfigValue st) (autosave st)
           (notify st) (events st).
Definition withUpdating (b : bool) (st : State) : State :=
  mkBridge (pmap st) (config st) b (autosave st) (notify st) (events st).
Definition record (e : Event Item) (st : State) : State :=
  mkBridge (pmap st) (config st) (updatingConfigValue st) (autosave st)
           (notify st) (events st ++ [e]).

Definition isAutosave (st : State) : bool := autosave st.
Definition setAutosave (b : bool) (st : State) : State :=
  mkBridge (pmap st) (config st) (updatingConfigValue st) b
           (notify st) (events st).
Definition isNotify (st : State) : bool := notify st.
Definition setNotify (b : bool) (st : State) : State :=
  mkBridge (pmap st) (config st) (updatingConfigValue st) (autosave st)
           b (events st).

(** [config.data()->...]: a call through the pointer, which must not be
    null. *)
Definition callConfig (e : Event Item) (f : Skel -> Skel) (st : State)
  : Result State :=
  match config st with
  | None => NullPointerDereference
  | Some c => Done (record e (withConfig (Some (f c)) st))
  end.

Definition updateValue (k : string) (input : QVariant) : QVariant :=
  match input with
  | VJSValue js => toVariant js
  | _ => input
  end.

Definition isImmutable (k : string) (st : State) : Result bool :=
  match config st with
  | None => NullPointerDereference
  | Some c =>
      match findItem c k with
      | Some item => Done (itemIsImmutable c item)
      | None => Done false
      end
  end.

Definition writeFlags (st : State) : WriteConfigFlag :=
  if notify st then Notify else Normal.

Section Slots.
(** [d->loadConfig(EmitValueChanged)] as run from inside a slot. *)
Variable reload : State -> Result State.

(** The lambda connected to [configChanged]. *)
Definition configChangedSlot (st : State) : Result State :=
  if negb (updatingConfigValue st) then reload st else Done st.

(** [config.data()->save()]; the [configChanged] it may emit reaches
    the slot before [save] returns. *)
Definition callSave (st : State) : Result State :=
  match config st with
  | None => NullPointerDereference
  | Some c =>
      let st := record CallSave (withConfig (Some (fst (save c))) st) in
      if snd (save c)
      then configChangedSlot (record ConfigChanged st)
      else Done st
  end.

Definition writeConfigValue (k : string) (value : QVariant) (st : State)
  : Result State :=
  match config st with
  | None => NullPointerDereference
  | Some c =>
      match findItem c k with
      | Some item =>
          let st := withUpdating true st in
          st ← callConfig (CallSetWriteFlags item (writeFlags st))
                          (setWriteFlags item (writeFlags st)) st;
          st ← callConfig (CallSetProperty item value)
                          (setProperty item value) st;
          st ← (if autosave st
                then st ← callSave st; callConfig CallRead read st
                else Done st);
          Done (withUpdating false st)
      | None => Done st
      end
  end.

(** [emit q->valueChanged(k, value)]; the lambda connected to the
    signal runs [writeConfigValue] before the emission returns. *)
Definition emitValueChanged (k : string) (value : QVariant) (st : State)
  : Result State :=
  writeConfigValue k value (record (ValueChanged k value) st).

(** The loop of [loadConfig] over the item handles taken from
    [items()] before the first iteration. *)
Fixpoint loadItems (option : LoadConfigOption) (its : list Item)
         (st : State) : Result State :=
  match its with
  | [] => Done st
  | item :: rest =>
      match config st with
      | None => NullPointerDereference
      | Some c =>
          let k := key c item in
          let value := property c item in
          let st := withPmap (<[k := value]> (pmap st)) st in
          st ← match option with
               | EmitValueChanged => emitValueChanged k value st
               | DontEmitValueChanged => Done st
               end;
          loadItems option rest st
      end
  end.

Definition loadConfigIn (option : LoadConfigOption) (st : State)
  : Result State :=
  match config st with
  | None => Done st
  | Some c => loadItems option (items c) st
  end.

(** The loop of [writeConfig]; [q->value(k)] is the invalid variant
    for a key the map does not hold. *)
Fixpoint writeItems (its : list Item) (st : State) : Result State :=
  match its with
  | [] => Done st
  | item :: rest =>
      st ← callConfig (CallSetWriteFlags item (writeFlags st))
                      (setWriteFlags item (writeFlags st)) st;
      match config st with
      | None => NullPointerDereference
      | Some c =>
          let value := default Invalid (pmap st !! key c item) in
          st ← callConfig (CallSetProperty item value)
                          (setProperty item value) st;
          writeItems rest st
      end
  end.

Definition writeConfigIn (st : State) : Result State :=
  match config st with
  | None => Done st
  | Some c =>
      st ← writeItems (items c) st;
      if autosave st
      then
        st ← callSave (withUpdating true st);
        Done (withUpdating false st)
      else Done st
  end.
End Slots.

(** [loadConfig], the signals it emits delivered synchronously.  A
    reload started from inside a slot may itself nest at most [depth]
    further reloads. *)
Fixpoint loadConfig (depth : nat) : LoadConfigOption -> State -> Result State :=
  match depth with
  | O => loadConfigIn (fun _ => TooDeep)
  | S d => loadConfigIn (loadConfig d EmitValueChanged)
  end.

(** The reload a slot may start. *)
Definition nested (depth : nat) : State -> Result State :=
  match depth with
  | O => fun _ => TooDeep
  | S d => loadConfig d EmitValueChanged
  end.

Definition writeConfig (depth : nat) (st : State) : Result State :=
  writeConfigIn (nested depth) st.

(** The constructor: a fresh, empty map, the members at their initial
    values, then the first load. *)
Definition construct (depth : nat) (cfg : option Skel) : Result State :=
  loadConfig depth DontEmitValueChanged
             (mkBridge ∅ cfg false true false []).

(** The destructor, up to [delete d]. *)
Definition destroy (depth : nat) (st : State) : Result State :=
  if autosave st then writeConfig depth st else Done st.

(** The configuration emits [configChanged] on its own account. *)
Definition configChanged (depth : nat) (st : State) : Result State :=
  configChangedSlot (loadConfig depth EmitValueChanged)
                    (record ConfigChanged st).

(** The map emits [valueChanged(k, value)]. *)
Definition valueChanged (depth : nat) (k : string) (value : QVariant)
           (st : State) : Result State :=
  emitValueChanged (nested depth) k value st.

(** A script assigns [input] to the property [k] of the map: the map
    stores what [updateValue] returns and emits [valueChanged]. *)
Definition write (depth : nat) (k : string) (input : QVariant)
           (st : State) : Result State :=
  let value := updateValue k input in
  valueChanged depth k value (withPmap (<[k := value]> (pmap st)) st).


(** The configuration object is deleted: the [QPointer] turns null. *)
Definition configDestroyed (st : State) : State := withConfig None st.
End Members.

(** *** Vocabulary of the statements *)

(** The calls the bridge makes on a configuration change values; they
    leave the list of items and the key of every item as they are. *)
Definition sameItems `{KCoreConfigSkeleton Skel Item} (c c' : Skel) : Prop :=
  items c' = items c /\ forall i, key c' i = key c i.

Class StableItems (Skel Item : Type) `{!KCoreConfigSkeleton Skel Item}
  : Prop := {
  setWriteFlags_same item flag c : sameItems c (setWriteFlags item flag c);
  setProperty_same item value c : sameItems c (setProperty item value c);
  save_same c : sameItems c (fst (save c));
  read_same c : sameItems c (read c)
}.

Section WriteBack.
Context {Skel Item : Type} `{!KCoreConfigSkeleton Skel Item}.

(** The configuration after [value] was written back to [item]. *)
Definition written (st : Bridge Skel Item) (c : Skel) (item : Item)
           (value : QVariant) : Skel :=
  let c1 := setProperty item value
              (setWriteFlags item (writeFlags st) c) in
  if autosave st then read (fst (save c1)) else c1.

(** The calls made, and the signal delivered, while doing so. *)
Definition writeBackEvents (st : Bridge Skel Item) (c : Skel)
           (item : Item) (value : QVariant) : list (Event Item) :=
  let c1 := setProperty item value
              (setWriteFlags item (writeFlags st) c) in
  [CallSetWriteFlags item (writeFlags st); CallSetProperty item value]
  ++ (if autosave st
      then [CallSave]
           ++ (if snd (save c1) then [ConfigChanged] else [])
           ++ [CallRead]
      else []).
End WriteBack.

(** *** An executable configuration

    Modelled from the spec: [KCoreConfigSkeleton] belongs to the
    configuration framework and is not among the sources at hand.  This
    one keeps its items in a list and its file in a map.  An item has a
    key, a current value, the value last loaded or saved, a default and
    the immutable flag; [save] writes the items whose value differs from
    the loaded one and reports a change when it wrote one; [read] takes
    every value from the file again. *)
Record MemItem : Type := mkItem {
  m_key : string;
  m_value : QVariant;
  m_loaded : QVariant;
  m_default : QVariant;
  m_immutable : bool;
  m_flags : WriteConfigFlag
}.

Record MemSkeleton : Type := mkSkeleton {
  m_items : list MemItem;
  m_file : gmap string QVariant
}.

Definition memItem (k : string) (value : QVariant) : MemItem :=
  mkItem k value value value false Normal.

Definition isDirty (it : MemItem) : bool :=
  negb (m_immutable it) && negb (bool_decide (m_value it = m_loaded it)).

Definition memSave (c : MemSkeleton) : MemSkeleton * bool :=
  (mkSkeleton
     ((fun it => mkItem (m_key it) (m_value it) (m_value it) (m_default it)
                        (m_immutable it) (m_flags it)) <$> m_items c)
     (foldl (fun file it =>
               if isDirty it then <[m_key it := m_value it]> file else file)
            (m_file c) (m_items c)),
   existsb isDirty (m_items c)).

Definition memRead (c : MemSkeleton) : MemSkeleton :=
  mkSkeleton
    ((fun it =>
        let value := default (m_default it) (m_file c !! m_key it) in
        mkItem (m_key it) value value (m_default it)
               (m_immutable it) (m_flags it)) <$> m_items c)
    (m_file c).

#[global] Instance MemSkeleton_config : KCoreConfigSkeleton MemSkeleton nat := {|
  items c := seq 0 (length (m_items c));
  findItem c k := fst <$> list_find (fun it => m_key it = k) (m_items c);
  key c i := from_option m_key EmptyString (m_items c !! i);
  property c i := from_option m_value Invalid (m_items c !! i);
  itemIsImmutable c i := from_option m_immutable false (m_items c !! i);
  setWriteFlags i flag c :=
    mkSkeleton
      (alter (fun it => mkItem (m_key it) (m_value it) (m_loaded it)
                               (m_default it) (m_immutable it) flag)
             i (m_items c))
      (m_file c);
  setProperty i value c :=
    mkSkeleton
      (alter (fun it => mkItem (m_key it) value (m_loaded it)
                               (m_default it) (m_immutable it) (m_flags it))
             i (m_items c))
      (m_file c);
  save := memSave;
  read := memRead
|}.

(** A configuration with two items, and the bridge as it stands right
    after it was constructed over that configuration. *)
Definition demoConfig : MemSkeleton :=
  mkSkeleton [memItem "a" (VInt 1); memItem "b" (VString "x")] ∅.

Definition demoBridge : Bridge MemSkeleton nat :=
  mkBridge (<["b" := VString "x"]> (<["a" := VInt 1]> ∅))
           (Some demoConfig) false true false [].

(** *** More vocabulary *)

Section WriteAll.
Context {Skel Item : Type} `{!KCoreConfigSkeleton Skel Item}.

(** What [writeConfig] hands to one item: the write flags and the value
    the map holds under the key of the item. *)
Definition writeItemEvents (st : Bridge Skel Item) (c : Skel) (item : Item)
  : list (Event Item) :=
  [CallSetWriteFlags item (writeFlags st);
   CallSetProperty item (default Invalid (pmap st !! key c item))].

(** The calls of [save()] and the signal it may deliver. *)
Definition saveEvents (c : Skel) : list (Event Item) :=
  CallSave :: (if snd (save c) then [ConfigChanged] else []).

(** The calls of [save()] and [read()] among the events. *)
Definition isSaving (e : Event Item) : bool :=
  match e with
  | CallSave | CallRead => true
  | _ => false
  end.
End WriteAll.

(** A configuration whose two items share the key [a]. *)
Definition sharedKeyConfig : MemSkeleton :=
  mkSkeleton [memItem "a" (VInt 1); memItem "a" (VInt 2)] ∅.

(** A configuration whose only item is immutable, and the bridge right
    after it was constructed over it. *)
Definition lockedConfig : MemSkeleton :=
  mkSkeleton [mkItem "a" (VInt 1) (VInt 1) (VInt 1) true Normal] ∅.

Definition lockedBridge : Bridge MemSkeleton nat :=
  mkBridge (<["a" := VInt 1]> ∅) (Some lockedConfig) false true false [].

(** A call that does not end for want of depth. *)
Definition notTooDeep {A} (r : Result A) : Prop :=
  match r with TooDeep => False | _ => True end.

(** The map after the announced changes were applied to it, in order. *)
Definition applyChanges (m : gmap string QVariant)
           (changes : list (string * QVariant)) : gmap string QVariant :=
  foldl (fun m kv => <[fst kv := snd kv]> m) m changes.

End ConfigPropertyMap.
(* ================================================================== *)
(** * Proofs *)

(** ** The translation context *)

Module TranslationContextProofs.
Import TranslationContext.

Lemma subsParam_args (k : KLocalizedString) (p : QString) :
  subsParam k p =
  mkKLS (kls_domain k) (kls_context k) (kls_text k) (kls_plural k)
        (kls_args k ++ paramArgs [p]).
Proof.
  destruct k as [d c t pl args], p as [s|]; cbn.
  - reflexivity.
  - by rewrite app_nil_r.
Qed.

Lemma subsCount_args toInt (k : KLocalizedString) (p : QString) :
  subsCount toInt k p =
  mkKLS (kls_domain k) (kls_context k) (kls_text k) (kls_plural k)
        (kls_args k ++ countArgs toInt p).
Proof.
  destruct k as [d c t pl args], p as [s|]; cbn.
  - unfold subsCount; cbn. by destruct (toInt s).
  - by rewrite app_nil_r.
Qed.

(** Substituting a whole list of parameters appends their arguments. *)
Lemma foldl_subsParam (ps : list QString) : forall k : KLocalizedString,
  foldl subsParam k ps =
  mkKLS (kls_domain k) (kls_context k) (kls_text k) (kls_plural k)
        (kls_args k ++ paramArgs ps).
Proof.
  induction ps as [|p ps IH]; intros k.
  - destruct k; cbn. by rewrite app_nil_r.
  - cbn [foldl]. rewrite IH, subsParam_args. cbn.
    rewrite <- app_assoc. do 2 f_equal.
    unfold paramArgs. cbn. by destruct p.
Qed.

Lemma paramArgs_null (ps : list QString) :
  paramArgs (None :: ps) = paramArgs ps.
Proof. reflexivity. Qed.

Lemma paramArgs_text (s : string) (ps : list QString) :
  paramArgs (Some s :: ps) = SubsString s :: paramArgs ps.
Proof. reflexivity. Qed.

Section Built.
Variable toInt : string -> option Z.
Variable toString : KLocalizedString -> string.
Variables m_domain param1 param2 param3 param4 param5
          param6 param7 param8 param9 param10 : QString.

Local Abbreviation call f :=
  (f param1 param2 param3 param4 param5
     param6 param7 param8 param9 param10).
Local Abbreviation later f :=
  (f param2 param3 param4 param5
     param6 param7 param8 param9 param10).
Local Abbreviation after2 f :=
  (f param3 param4 param5 param6 param7 param8 param9 param10)
 .

Lemma i18n_built (message : string) :
  call (i18n toString m_domain (Some message)) =
  mkReply
    (Some (toString
       (mkKLS (constData m_domain) None message None
          (paramArgs [param1; param2; param3; param4; param5;
                      param6; param7; param8; param9; param10])))) [].
Proof.
  unfold i18n. cbn [isNull constData].
  change (subsParam _ param10) with
    (foldl subsParam (ki18nd (constData m_domain) message)
       [param1; param2; param3; param4; param5;
        param6; param7; param8; param9; param10]).
  by rewrite foldl_subsParam.
Qed.

Lemma i18nc_built (context message : string) :
  call (i18nc toString m_domain (Some context) (Some message)) =
  mkReply
    (Some (toString
       (mkKLS (constData m_domain) (Some context) message None
          (paramArgs [param1; param2; param3; param4; param5;
                      param6; param7; param8; param9; param10])))) [].
Proof.
  unfold i18nc. cbn [isNull constData orb].
  change (subsParam _ param10) with
    (foldl subsParam
       (ki18ndc (constData m_domain) context message)
       [param1; param2; param3; param4; param5;
        param6; param7; param8; param9; param10]).
  by rewrite foldl_subsParam.
Qed.

Lemma i18np_built (singular plural : string) :
  call (i18np toInt toString m_domain (Some singular) (Some plural)) =
  mkReply
    (Some (toString
       (mkKLS (constData m_domain) None singular (Some plural)
          (countArgs toInt param1 ++
           paramArgs [param2; param3; param4; param5;
                      param6; param7; param8; param9; param10])))) [].
Proof.
  unfold i18np. cbn [isNull constData orb].
  change (subsParam _ param10) with
    (foldl subsParam
       (subsCount toInt
          (ki18ndp (constData m_domain) singular plural) param1)
       [param2; param3; param4; param5;
        param6; param7; param8; param9; param10]).
  by rewrite foldl_subsParam, subsCount_args.
Qed.

Lemma i18ncp_built (context singular plural : string) :
  call (i18ncp toInt toString m_domain
               (Some context) (Some singular) (Some plural)) =
  mkReply
    (Some (toString
       (mkKLS (constData m_domain) (Some context) singular (Some plural)
          (countArgs toInt param1 ++
           paramArgs [param2; param3; param4; param5;
                      param6; param7; param8; param9; param10])))) [].
Proof.
  unfold i18ncp. cbn [isNull constData orb].
  change (subsParam _ param10) with
    (foldl subsParam
       (subsCount toInt
          (ki18ndcp (constData m_domain) context singular plural) param1)
       [param2; param3; param4; param5;
        param6; param7; param8; param9; param10]).
  by rewrite foldl_subsParam, subsCount_args.
Qed.
End Built.

Section Statements.
Variable toInt : string -> option Z.
Variable toString : KLocalizedString -> string.
Variables m_domain param1 param2 param3 param4 param5
          param6 param7 param8 param9 param10 : QString.

Local Abbreviation call f :=
  (f param1 param2 param3 param4 param5
     param6 param7 param8 param9 param10).
Local Abbreviation later f :=
  (f param2 param3 param4 param5
     param6 param7 param8 param9 param10).
Local Abbreviation after2 f :=
  (f param3 param4 param5 param6 param7 param8 param9 param10).

(** C7.  A translation call that lacks a required text refuses: it
    writes its warning and returns the null, hence empty, string.
    [i18n] requires the message; [i18nc] the context and the message;
    [i18np] the singular and the plural; [i18ncp] the context, the
    singular and the plural.  Whatever the other arguments are. *)
Theorem missing_text_is_refused :
  call (i18n toString m_domain None)
  = refusal "i18n() needs at least one parameter"
  /\ (forall message,
        call (i18nc toString m_domain None message)
        = refusal "i18nc() needs at least two arguments")
  /\ (forall context,
        call (i18nc toString m_domain context None)
        = refusal "i18nc() needs at least two arguments")
  /\ (forall plural,
        call (i18np toInt toString m_domain None plural)
        = refusal "i18np() needs at least two arguments")
  /\ (forall singular,
        call (i18np toInt toString m_domain singular None)
        = refusal "i18np() needs at least two arguments")
  /\ (forall singular plural,
        call (i18ncp toInt toString m_domain None singular plural)
        = refusal "i18ncp() needs at least three arguments")
  /\ (forall context plural,
        call (i18ncp toInt toString m_domain context None plural)
        = refusal "i18ncp() needs at least three arguments")
  /\ (forall context singular,
        call (i18ncp toInt toString m_domain context singular None)
        = refusal "i18ncp() needs at least three arguments")
  /\ (forall line,
        returned (refusal line) = None
        /\ isEmpty (returned (refusal line)) = true
        /\ warnings (refusal line) = [line]).
Proof.
  split; [reflexivity|].
  split; [reflexivity|].
  split; [by intros [c|]|].
  split; [reflexivity|].
  split; [by intros [s|]|].
  split; [reflexivity|].
  split; [by intros [c|] [p|]|].
  split; [by intros [c|] [s|]|].
  by intros line.
Qed.

(** C8.  In a plural call whose texts are present and whose first
    parameter [p] is not null: when [p] parses as the integer [num],
    the number [num] is substituted for it; when [p] does not parse
    as an integer, the text [p] itself is.  Either way it is the
    first argument, ahead of the later non-null parameters. *)
Theorem plural_count_parameter (p : string) :
  (forall num : Z,
     toInt p = Some num ->
     (forall singular plural : string,
        later (i18np toInt toString m_domain
                     (Some singular) (Some plural) (Some p))
        = mkReply
            (Some (toString
               (mkKLS (constData m_domain) None singular (Some plural)
                  (SubsInt num ::
                   paramArgs [param2; param3; param4; param5; param6;
                              param7; param8; param9; param10])))) [])
     /\ (forall context singular plural : string,
           later (i18ncp toInt toString m_domain (Some context)
                         (Some singular) (Some plural) (Some p))
           = mkReply
               (Some (toString
                  (mkKLS (constData m_domain) (Some context) singular
                     (Some plural)
                     (SubsInt num ::
                      paramArgs [param2; param3; param4; param5; param6;
                                 param7; param8; param9; param10])))) []))
  /\ (toInt p = None ->
      (forall singular plural : string,
         later (i18np toInt toString m_domain
                      (Some singular) (Some plural) (Some p))
         = mkReply
             (Some (toString
                (mkKLS (constData m_domain) None singular (Some plural)
                   (SubsString p ::
                    paramArgs [param2; param3; param4; param5; param6;
                               param7; param8; param9; param10])))) [])
      /\ (forall context singular plural : string,
            later (i18ncp toInt toString m_domain (Some context)
                          (Some singular) (Some plural) (Some p))
            = mkReply
                (Some (toString
                   (mkKLS (constData m_domain) (Some context) singular
                      (Some plural)
                      (SubsString p ::
                       paramArgs [param2; param3; param4; param5; param6;
                                  param7; param8; param9; param10])))) [])).
Proof.
  split.
  - intros num Hnum. split; intros.
    + rewrite i18np_built. cbn [countArgs]. by rewrite Hnum.
    + rewrite i18ncp_built. cbn [countArgs]. by rewrite Hnum.
  - intros Hnone. split; intros.
    + rewrite i18np_built. cbn [countArgs]. by rewrite Hnone.
    + rewrite i18ncp_built. cbn [countArgs]. by rewrite Hnone.
Qed.

(** C10.  Each of the ten parameters is tested for null on its own and
    only the non-null ones are substituted, in the order of the
    parameters: the arguments of the message are the non-null
    parameters, closed up.  A null parameter therefore holds no
    position: a non-null parameter after it moves up, and with a null
    first and a non-null second parameter the second one is the
    first argument. *)
Theorem null_parameters_hold_no_position :
  (forall message : string,
     call (i18n toString m_domain (Some message))
     = mkReply
         (Some (toString
            (mkKLS (constData m_domain) None message None
               (paramArgs [param1; param2; param3; param4; param5;
                           param6; param7; param8; param9; param10])))) [])
  /\ (forall context message : string,
        call (i18nc toString m_domain (Some context) (Some message))
        = mkReply
            (Some (toString
               (mkKLS (constData m_domain) (Some context) message None
                  (paramArgs [param1; param2; param3; param4; param5;
                              param6; param7; param8; param9; param10]))))
            [])
  /\ (forall singular plural : string,
        call (i18np toInt toString m_domain (Some singular) (Some plural))
        = mkReply
            (Some (toString
               (mkKLS (constData m_domain) None singular (Some plural)
                  (countArgs toInt param1 ++
                   paramArgs [param2; param3; param4; param5; param6;
                              param7; param8; param9; param10])))) [])
  /\ (forall context singular plural : string,
        call (i18ncp toInt toString m_domain
                     (Some context) (Some singular) (Some plural))
        = mkReply
            (Some (toString
               (mkKLS (constData m_domain) (Some context) singular
                  (Some plural)
                  (countArgs toInt param1 ++
                   paramArgs [param2; param3; param4; param5; param6;
                              param7; param8; param9; param10])))) [])
  /\ (forall ps : list QString, paramArgs (None :: ps) = paramArgs ps)
  /\ (forall (s : string) (ps : list QString),
        paramArgs (Some s :: ps) = SubsString s :: paramArgs ps)
  /\ countArgs toInt None = []
  /\ (forall message second : string,
        after2 (i18n toString m_domain (Some message) None (Some second))
        = mkReply
            (Some (toString
               (mkKLS (constData m_domain) None message None
                  (SubsString second ::
                   paramArgs [param3; param4; param5; param6;
                              param7; param8; param9; param10])))) [])
  /\ (forall singular plural second : string,
        after2 (i18np toInt toString m_domain
                      (Some singular) (Some plural) None (Some second))
        = mkReply
            (Some (toString
               (mkKLS (constData m_domain) None singular (Some plural)
                  (SubsString second ::
                   paramArgs [param3; param4; param5; param6;
                              param7; param8; param9; param10])))) []).
Proof.
  split; [intros; apply i18n_built|].
  split; [intros; apply i18nc_built|].
  split; [intros; apply i18np_built|].
  split; [intros; apply i18ncp_built|].
  split; [apply paramArgs_null|].
  split; [apply paramArgs_text|].
  split; [reflexivity|].
  split; intros.
  - by rewrite i18n_built.
  - by rewrite i18np_built.
Qed.
End Statements.

(** The plural calls on the executable host: a numeral chooses the form,
    any other text is put in as it is. *)
Lemma plural_count_parameter_witness :
  returned (i18np toIntDecimal toStringUntranslated None
                  (Some "%1 file") (Some "%1 files") (Some "3")
                  None None None None None None None None None)
  = Some "3 files"
  /\ returned (i18np toIntDecimal toStringUntranslated None
                     (Some "%1 file") (Some "%1 files") (Some "no")
                     None None None None None None None None None)
     = Some "no file".
Proof.
  split.
  - destruct (plural_count_parameter toIntDecimal toStringUntranslated
                None None None None None None None None None None "3")
      as [Hnum _].
    destruct (Hnum 3 eq_refl) as [Hp _]. by rewrite Hp.
  - destruct (plural_count_parameter toIntDecimal toStringUntranslated
                None None None None None None None None None None "no")
      as [_ Htext].
    destruct (Htext eq_refl) as [Hp _]. by rewrite Hp.
Defined.

Example one_file :
  returned (i18np toIntDecimal toStringUntranslated None
                  (Some "%1 file") (Some "%1 files") (Some "1")
                  None None None None None None None None None)
  = Some "1 file".
Proof. reflexivity. Qed.

Example second_parameter_moves_up :
  returned (i18n toStringUntranslated None (Some "%1 and %2")
                 None (Some "b") None None None None None None None None)
  = Some "b and %2".
Proof. reflexivity. Qed.
End TranslationContextProofs.

(** ** The key sequence helper *)

Module KeySequenceHelperProofs.
Import KeySequenceHelper.

Lemma testFlag_andFlag (flags : Z) :
  testFlag flags StandardShortcuts = andFlag flags StandardShortcuts.
Proof.
  unfold testFlag, andFlag, StandardShortcuts.
  change (1 =? 0) with false. cbn [negb orb]. rewrite andb_true_r.
  assert (H : Z.land flags 1 = 0 \/ Z.land flags 1 = 1).
  { change 1 with (Z.ones 1) at 1 2. rewrite !Z.land_ones by lia.
    change (2 ^ 1) with 2. Z.div_mod_to_equations. lia. }
  destruct H as [-> | ->]; reflexivity.
Qed.

Lemma nonEmpty_true {A} (l : list A) : l <> [] -> nonEmpty l = true.
Proof. by destruct l. Qed.

Section Statements.
Variable h : Host.
Variable checkAgainstShortcutTypes : Z.

(** C5.  Whatever the bitmask of checks is, an empty key sequence is
    reported available, and neither registry is consulted nor any
    dialog shown: the check performs no action at all. *)
Theorem empty_sequence_is_available :
  result (isKeySequenceAvailable h checkAgainstShortcutTypes []) = true
  /\ actions (isKeySequenceAvailable h checkAgainstShortcutTypes []) = [].
Proof. split; reflexivity. Qed.

Lemma conflictWithStandardShortcuts_found (seq : QKeySequence) :
  andFlag checkAgainstShortcutTypes StandardShortcuts = true ->
  find h seq <> AccelNone ->
  conflictWithStandardShortcuts h checkAgainstShortcutTypes seq =
  (match reassignAnswer h seq with Continue => false | Cancel => true end,
   [FindStandard seq;
    WarningBox (reassignMessage h (find h seq) seq)
      "Conflict with Standard Application Shortcut" "Reassign"]).
Proof.
  intros Hflag Hfind.
  unfold conflictWithStandardShortcuts, checkAgainstStandardShortcuts.
  rewrite Hflag. cbn [negb].
  destruct (N.eqb_spec (find h seq) AccelNone) as [|_]; [done|].
  unfold stealStandardShortcut, reassignAnswer.
  by destruct (warningContinueCancel h _ _ _).
Qed.

(** C3.  Let a non-empty sequence match a standard shortcut while the
    check against standard shortcuts is active.  The user is shown the
    reassignment prompt.  When the user declines, the sequence
    conflicts with the standard shortcuts and is reported unavailable,
    whatever the global check found.  When the user approves, it does
    not conflict with the standard shortcuts, and its availability is
    left to the global check alone. *)
Theorem standard_conflict_follows_the_user (seq : QKeySequence) :
  seq <> [] ->
  find h seq <> AccelNone ->
  testFlag checkAgainstShortcutTypes StandardShortcuts = true ->
  let standard := conflictWithStandardShortcuts h checkAgainstShortcutTypes seq in
  let available := isKeySequenceAvailable h checkAgainstShortcutTypes seq in
  In (WarningBox (reassignMessage h (find h seq) seq)
        "Conflict with Standard Application Shortcut" "Reassign")
     (actions available)
  /\ (reassignAnswer h seq = Cancel ->
      result standard = true /\ result available = false)
  /\ (reassignAnswer h seq = Continue ->
      result standard = false
      /\ result available =
         negb (testFlag checkAgainstShortcutTypes GlobalShortcuts
               && result (conflictWithGlobalShortcuts
                            h checkAgainstShortcutTypes seq))).
Proof.
  intros Hseq Hfind Hflag standard available.
  assert (Hand : andFlag checkAgainstShortcutTypes StandardShortcuts = true)
    by (by rewrite <- testFlag_andFlag).
  pose proof (conflictWithStandardShortcuts_found seq Hand Hfind) as Hstd.
  subst standard available. unfold isKeySequenceAvailable.
  destruct seq as [|k seq']; [done|]. cbn [keySequenceIsEmpty].
  rewrite Hflag, Hstd.
  destruct (testFlag checkAgainstShortcutTypes GlobalShortcuts);
    destruct (conflictWithGlobalShortcuts h checkAgainstShortcutTypes (k :: seq'))
      as [g acts];
    unfold result, actions, bind, ret; cbn [fst snd orb andb negb].
  all: split; [rewrite ?app_nil_r, !in_app_iff; cbn; tauto|].
  all: split; intros ->; rewrite ?orb_true_r, ?orb_false_r; done.
Qed.
(** The lists the check works with for an unavailable sequence. *)
Lemma conflictWithGlobalShortcuts_unavailable (seq : QKeySequence) :
  platform h = Unix ->
  andFlag checkAgainstShortcutTypes GlobalShortcuts = true ->
  isGlobalShortcutAvailable h seq = false ->
  let others := globalShortcutsByKey h seq Equal in
  let shadow := globalShortcutsByKey h seq Shadows in
  let shadowed := globalShortcutsByKey h seq Shadowed in
  conflictWithGlobalShortcuts h checkAgainstShortcutTypes seq =
  if nonEmpty shadow || nonEmpty shadowed
  then (true,
        registryQueries seq ++
        [ErrorBox (shadowingMessage (toString h seq) shadow shadowed)
                  "Global Shortcut Shadowing"])
  else if nonEmpty others
       then if promptStealShortcutSystemwide h others seq
            then (false,
                  registryQueries seq ++
                  [StealPrompt others seq; StealShortcutSystemwide seq])
            else (true, registryQueries seq ++ [StealPrompt others seq])
       else (false, registryQueries seq ++ [StealShortcutSystemwide seq]).
Proof.
  intros Hos Hflag Hav others shadow shadowed.
  unfold conflictWithGlobalShortcuts. rewrite Hos, Hflag, Hav.
  cbn [negb]. unfold lookupByKey, bind, ret, perform.
  cbn [fst snd app].
  fold others shadow shadowed.
  destruct (nonEmpty shadow || nonEmpty shadowed); [reflexivity|].
  destruct (nonEmpty others); cbn [fst snd app]; [|reflexivity].
  by destruct (promptStealShortcutSystemwide h others seq).
Qed.

(** C4.  On a build that has the check, with the global check active,
    let the registry report the sequence unavailable.  When it shadows
    or is shadowed by some global action, the shadowing message is the
    only dialog, the sequence conflicts, and neither the offer to steal
    nor the steal takes place.  When there is no shadowing but a direct
    collision, the user is offered to steal: on approval the shortcut
    is stolen at once and the sequence does not conflict; on refusal it
    conflicts and nothing is stolen. *)
Theorem global_conflict_cases (seq : QKeySequence) :
  platform h = Unix ->
  andFlag checkAgainstShortcutTypes GlobalShortcuts = true ->
  isGlobalShortcutAvailable h seq = false ->
  let others := globalShortcutsByKey h seq Equal in
  let shadow := globalShortcutsByKey h seq Shadows in
  let shadowed := globalShortcutsByKey h seq Shadowed in
  let check := conflictWithGlobalShortcuts h checkAgainstShortcutTypes seq in
  (shadow <> [] \/ shadowed <> [] ->
   result check = true
   /\ actions check =
      registryQueries seq ++
      [ErrorBox (shadowingMessage (toString h seq) shadow shadowed)
                "Global Shortcut Shadowing"])
  /\ (shadow = [] -> shadowed = [] -> others <> [] ->
      (promptStealShortcutSystemwide h others seq = true ->
       result check = false
       /\ actions check =
          registryQueries seq ++
          [StealPrompt others seq; StealShortcutSystemwide seq])
      /\ (promptStealShortcutSystemwide h others seq = false ->
          result check = true
          /\ actions check =
             registryQueries seq ++ [StealPrompt others seq])).
Proof.
  intros Hos Hflag Hav others shadow shadowed check.
  pose proof (conflictWithGlobalShortcuts_unavailable seq Hos Hflag Hav)
    as Hrun.
  cbv zeta in Hrun. fold others shadow shadowed check in Hrun.
  split.
  - intros Hsh.
    assert (Hne : nonEmpty shadow || nonEmpty shadowed = true).
    { destruct Hsh as [Hsh | Hsh];
        rewrite (nonEmpty_true _ Hsh); [reflexivity | apply orb_true_r]. }
    rewrite Hne in Hrun. by rewrite Hrun.
  - intros Hs Hsd Hoth.
    rewrite Hs, Hsd in Hrun. cbn [nonEmpty orb] in Hrun.
    rewrite (nonEmpty_true _ Hoth) in Hrun.
    split; intros Hans; rewrite Hans in Hrun; by rewrite Hrun.
Qed.
End Statements.

(** The user declines the reassignment of a sequence bound to a standard
    shortcut. *)
Lemma standard_conflict_follows_the_user_witness :
  result (isKeySequenceAvailable
            (tableHost Unix 3%N true [] [] [] Cancel true) 3 [67]) = false.
Proof.
  pose (h := tableHost Unix 3%N true [] [] [] Cancel true).
  assert (Hseq : [67] <> ([] : QKeySequence)) by discriminate.
  assert (Hfind : find h [67] <> AccelNone) by discriminate.
  destruct (standard_conflict_follows_the_user h 3 [67] Hseq Hfind eq_refl)
    as (_ & Hdecline & _).
  exact (proj2 (Hdecline eq_refl)).
Defined.

(** A direct collision that the user agrees to steal, and a shadowing. *)
Lemma global_conflict_cases_witness :
  conflictWithGlobalShortcuts
    (tableHost Unix 0%N false [demoInfo] [] [] Continue true) 3 [67]
  = (false,
     registryQueries [67] ++
     [StealPrompt [demoInfo] [67]; StealShortcutSystemwide [67]])
  /\ result (conflictWithGlobalShortcuts
               (tableHost Unix 0%N false [demoInfo] [demoInfo] [] Continue true)
               3 [67]) = true.
Proof.
  split.
  - pose (h := tableHost Unix 0%N false [demoInfo] [] [] Continue true).
    destruct (global_conflict_cases h 3 [67] eq_refl eq_refl eq_refl)
      as (_ & Hdirect).
    assert (Hothers : globalShortcutsByKey h [67] Equal <> []) by discriminate.
    destruct (Hdirect eq_refl eq_refl Hothers) as (Hyes & _).
    destruct (Hyes eq_refl) as [Hres Hacts].
    fold h. destruct (conflictWithGlobalShortcuts h 3 [67]) as [r acts].
    cbn [result actions fst snd] in Hres, Hacts. by subst.
  - pose (h := tableHost Unix 0%N false [demoInfo] [demoInfo] [] Continue true).
    destruct (global_conflict_cases h 3 [67] eq_refl eq_refl eq_refl)
      as (Hshadow & _).
    assert (Hsh : globalShortcutsByKey h [67] Shadows <> []) by discriminate.
    exact (proj1 (Hshadow (or_introl Hsh))).
Defined.

(** On the other builds the global check never reports a conflict. *)
Lemma other_builds_report_no_global_conflict (h : Host) (flags : Z)
      (seq : QKeySequence) :
  platform h <> Unix ->
  result (conflictWithGlobalShortcuts h flags seq) = false.
Proof.
  intros Hos. unfold conflictWithGlobalShortcuts.
  destruct (platform h); [| reflexivity | done].
  by destruct (negb (GlobalShortcuts =? 0) && contains "F12" (toString h seq)).
Qed.
End KeySequenceHelperProofs.

(** ** The configuration property map *)

Module ConfigPropertyMapProofs.
Import ConfigPropertyMap.

(** *** Maps filled from a list *)
Section FoldInsert.
Context {A : Type} (f : A -> string) (g : A -> QVariant).

Local Abbreviation fill := (foldl (fun m it => <[f it := g it]> m)).

Lemma dom_fill (l : list A) : forall m : gmap string QVariant,
  dom (fill m l) = dom m ∪ list_to_set (f <$> l).
Proof.
  induction l as [|a l IH]; intros m; cbn.
  - set_solver.
  - rewrite IH, dom_insert_L. set_solver.
Qed.

Lemma lookup_fill_notin (l : list A) (k : string) :
  forall m : gmap string QVariant,
  k ∉ f <$> l -> fill m l !! k = m !! k.
Proof.
  induction l as [|a l IH]; intros m Hk; cbn; [done|].
  cbn in Hk. apply not_elem_of_cons in Hk as [Hne Hk].
  rewrite IH by done. by rewrite lookup_insert_ne.
Qed.

Lemma lookup_fill_NoDup (l : list A) (a : A) :
  forall m : gmap string QVariant,
  NoDup (f <$> l) -> a ∈ l -> fill m l !! f a = Some (g a).
Proof.
  induction l as [|b l IH]; intros m Hnd Ha.
  - by apply elem_of_nil in Ha.
  - cbn in Hnd. apply NoDup_cons in Hnd as [Hb Hnd]. cbn.
    apply elem_of_cons in Ha as [-> | Ha].
    + rewrite lookup_fill_notin by done. apply lookup_insert_eq.
    + by apply IH.
Qed.

(** The last item with the key decides the value. *)
Lemma lookup_fill (l : list A) (k : string) :
  forall m : gmap string QVariant,
  fill m l !! k =
  match last (filter (fun it => f it = k) l) with
  | Some it => Some (g it)
  | None => m !! k
  end.
Proof.
  induction l as [|a l IH]; intros m; [done|].
  cbn [foldl]. rewrite IH, filter_cons.
  destruct (decide (f a = k)) as [Heq | Hne].
  - destruct (filter (fun it => f it = k) l) as [|b l'] eqn:Hf.
    + cbn. subst k. apply lookup_insert_eq.
    + change (last (a :: b :: l')) with (last (b :: l')).
      destruct (last (b :: l')) eqn:Hl; [done|].
      by apply last_None in Hl.
  - destruct (last (filter (fun it => f it = k) l)); [done|].
    by rewrite lookup_insert_ne.
Qed.
End FoldInsert.

Section Bridge.
Context {Skel Item : Type} `{!KCoreConfigSkeleton Skel Item}.

Local Abbreviation State := (Bridge Skel Item).

Lemma loadConfig_nested (depth : nat) :
  loadConfig depth = loadConfigIn (nested depth).
Proof. by destruct depth. Qed.

(** The first load only fills the map. *)
Lemma loadItems_quiet (reload : State -> Result State) (c : Skel)
      (its : list Item) : forall st : State,
  config st = Some c ->
  loadItems reload DontEmitValueChanged its st =
  Done (withPmap
          (foldl (fun m it => <[key c it := property c it]> m)
                 (pmap st) its) st).
Proof.
  induction its as [|it its IH]; intros st Hc; cbn.
  - by destruct st.
  - rewrite Hc. cbn. rewrite IH by done. by destruct st.
Qed.

(** Writing back to an item the configuration knows.  [reload] is never
    run: the slot of [configChanged] finds [updatingConfigValue] set. *)
Lemma writeConfigValue_found (reload : State -> Result State)
      (k : string) (value : QVariant) (st : State) (c : Skel) (item : Item) :
  config st = Some c ->
  findItem c k = Some item ->
  writeConfigValue reload k value st =
  Done (mkBridge (pmap st) (Some (written st c item value)) false
                 (autosave st) (notify st)
                 (events st ++ writeBackEvents st c item value)).
Proof.
  intros Hc Hf. unfold writeConfigValue. rewrite Hc, Hf.
  destruct st as [m cfg upd auto ntf evs]. cbn in Hc. subst cfg.
  unfold written, writeBackEvents, callConfig, callSave, configChangedSlot,
    writeFlags, record, withConfig, withUpdating; cbn.
  destruct auto; cbn; [|by rewrite <- !app_assoc].
  destruct (save _) as [c' changed]; cbn.
  destruct changed; cbn; by rewrite <- !app_assoc.
Qed.

Lemma writeConfigValue_missing (reload : State -> Result State)
      (k : string) (value : QVariant) (st : State) (c : Skel) :
  config st = Some c ->
  findItem c k = None ->
  writeConfigValue reload k value st = Done st.
Proof. intros Hc Hf. unfold writeConfigValue. by rewrite Hc, Hf. Qed.

Lemma valueChanges_app (l1 l2 : list (Event Item)) :
  valueChanges (l1 ++ l2) = valueChanges l1 ++ valueChanges l2.
Proof. apply omap_app. Qed.

Lemma valueChanges_cons (k : string) (value : QVariant)
      (l : list (Event Item)) :
  valueChanges (ValueChanged k value :: l) = (k, value) :: valueChanges l.
Proof. reflexivity. Qed.

Lemma valueChanges_writeBack (st : State) (c : Skel) (item : Item)
      (value : QVariant) :
  valueChanges (writeBackEvents st c item value) = [].
Proof.
  unfold writeBackEvents. destruct (autosave st); [|done].
  by destruct (snd (save _)).
Qed.

Lemma sameItems_refl (c : Skel) : sameItems c c.
Proof. by split. Qed.

Lemma sameItems_trans (c1 c2 c3 : Skel) :
  sameItems c1 c2 -> sameItems c2 c3 -> sameItems c1 c3.
Proof.
  intros [Hi1 Hk1] [Hi2 Hk2]. split; [congruence|].
  intros i. by rewrite Hk2.
Qed.

Lemma sameItems_keys (c c' : Skel) :
  sameItems c c' -> itemKeys c' = itemKeys c.
Proof.
  intros [Hi Hk]. unfold itemKeys. rewrite Hi.
  apply list_fmap_ext. intros ? ? _. apply Hk.
Qed.

(** The constructor only fills the empty map. *)
Lemma construct_run (depth : nat) (c : Skel) :
  construct depth (Some c) =
  Done (mkBridge
          (foldl (fun m item => <[key c item := property c item]> m)
                 (∅ : gmap string QVariant) (items c))
          (Some c) false true false []).
Proof.
  unfold construct. rewrite loadConfig_nested. unfold loadConfigIn.
  cbn [config]. by rewrite (loadItems_quiet _ c).
Qed.

(** C1.  Constructing the map over a configuration returns, with the
    configuration untouched, and the map then holds exactly the keys
    of the configuration's items, each key mapped to the current
    value of the last item, in the order of [items()], that has this
    key.  When the keys of the items are pairwise distinct, every item
    finds its own value under its key.  Nothing was emitted and nothing
    was called on the configuration: in particular no [valueChanged]. *)
Theorem construction_mirrors_the_items (depth : nat) (c : Skel) :
  exists st : State,
    construct depth (Some c) = Done st
    /\ config st = Some c
    /\ dom (pmap st) = list_to_set (itemKeys c)
    /\ (forall (k : string) (value : QVariant),
          pmap st !! k = Some value ->
          exists item, item ∈ items c /\ key c item = k
                       /\ property c item = value)
    /\ (forall k : string,
          pmap st !! k =
          property c <$> last (filter (fun item => key c item = k) (items c)))
    /\ (NoDup (itemKeys c) ->
        forall item, item ∈ items c ->
          pmap st !! key c item = Some (property c item))
    /\ events st = [].
Proof.
  eexists. split; [apply construct_run|]. cbn [pmap config events].
  assert (Hlook : forall k : string,
    foldl (fun m it => <[key c it := property c it]> m)
          (∅ : gmap string QVariant) (items c) !! k =
    property c <$> last (filter (fun item => key c item = k) (items c))).
  { intros k. rewrite lookup_fill, lookup_empty.
    by destruct (last _). }
  split; [reflexivity|]. split.
  { rewrite dom_fill, dom_empty_L. unfold itemKeys. set_solver. }
  split; [|split; [exact Hlook | split; [|reflexivity]]].
  - intros k value Hk. rewrite Hlook in Hk.
    destruct (last _) as [item|] eqn:Hlast; [|done].
    cbn in Hk. injection Hk as <-.
    apply last_Some_elem_of in Hlast.
    apply list_elem_of_filter in Hlast as [Hkey Hin]. by exists item.
  - intros Hnd item Hin.
    by apply (lookup_fill_NoDup (key c) (property c)).
Qed.

(** With pairwise distinct keys every item finds its own value under
    its key. *)
Corollary construction_distinct_keys (depth : nat) (c : Skel) (st : State) :
  construct depth (Some c) = Done st ->
  NoDup (itemKeys c) ->
  forall item, item ∈ items c ->
    pmap st !! key c item = Some (property c item).
Proof.
  rewrite construct_run. intros [= <-] Hnd item Hin. cbn [pmap].
  by apply (lookup_fill_NoDup (key c) (property c)).
Qed.

(** C9.  With a null configuration pointer [loadConfig], [writeConfig]
    and the destructor return at once and change nothing.  The write
    back of a key, whether the signal comes from the map or from a
    script assigning to it, and [isImmutable] call [findItem] through
    the null pointer. *)
Theorem null_config_faults (depth : nat) (st : State) :
  let st0 := configDestroyed st in
  (forall option, loadConfig depth option st0 = Done st0)
  /\ writeConfig depth st0 = Done st0
  /\ destroy depth st0 = Done st0
  /\ (forall k value, valueChanged depth k value st0 = NullPointerDereference)
  /\ (forall k input, write depth k input st0 = NullPointerDereference)
  /\ (forall k, isImmutable k st0 = NullPointerDereference).
Proof.
  cbv zeta. split; [|split; [|split]].
  - intros option. by rewrite loadConfig_nested.
  - reflexivity.
  - unfold destroy. by destruct (autosave _).
  - repeat split; reflexivity.
Qed.

Lemma construct_null (depth : nat) :
  construct depth (None : option Skel) =
  Done (mkBridge (Item := Item) ∅ None false true false []).
Proof. unfold construct. by rewrite loadConfig_nested. Qed.

Context `{!StableItems Skel Item}.

Lemma written_same (st : State) (c : Skel) (item : Item) (value : QVariant) :
  sameItems c (written st c item value).
Proof.
  unfold written.
  assert (H1 : sameItems c (setProperty item value
                              (setWriteFlags item (writeFlags st) c))).
  { eapply sameItems_trans;
      [apply setWriteFlags_same | apply setProperty_same]. }
  destruct (autosave st); [|done].
  eapply sameItems_trans; [exact H1|].
  eapply sameItems_trans; [apply save_same | apply read_same].
Qed.

(** What one delivery of [valueChanged] does, whether the key names an
    item or not. *)
Lemma emitValueChanged_spec (reload : State -> Result State)
      (k : string) (value : QVariant) (st : State) (c : Skel) :
  config st = Some c ->
  exists (c' : Skel) (upd : bool) (evs : list (Event Item)),
    emitValueChanged reload k value st =
    Done (mkBridge (pmap st) (Some c') upd (autosave st) (notify st)
                   (events st ++ ValueChanged k value :: evs))
    /\ sameItems c c' /\ valueChanges evs = [].
Proof.
  intros Hc. unfold emitValueChanged.
  destruct st as [m cfg upd auto ntf evs]. cbn in Hc. subst cfg.
  set (st1 := record (ValueChanged k value) _).
  destruct (findItem c k) as [item|] eqn:Hf.
  - rewrite (writeConfigValue_found reload k value st1 c item eq_refl Hf).
    exists (written st1 c item value), false,
           (writeBackEvents st1 c item value).
    split; [|split; [apply written_same | apply valueChanges_writeBack]].
    subst st1. cbn [record pmap config autosave notify events].
    by rewrite <- app_assoc.
  - rewrite (writeConfigValue_missing reload k value st1 c eq_refl Hf).
    exists c, upd, []. subst st1. cbn.
    split; [reflexivity|]. split; [apply sameItems_refl | reflexivity].
Qed.

(** A load that emits: every item is inserted and announced, in order,
    and no key leaves the map. *)
Lemma loadItems_emit (reload : State -> Result State) (its : list Item) :
  forall (st : State) (c : Skel),
  config st = Some c ->
  exists (st' : State) (c' : Skel) (evs : list (Event Item)),
    loadItems reload EmitValueChanged its st = Done st'
    /\ config st' = Some c' /\ sameItems c c'
    /\ dom (pmap st') = dom (pmap st) ∪ list_to_set (key c <$> its)
    /\ autosave st' = autosave st /\ notify st' = notify st
    /\ events st' = events st ++ evs
    /\ (valueChanges evs).*1 = key c <$> its.
Proof.
  induction its as [|it its IH]; intros st c Hc.
  - exists st, c, []. cbn. rewrite app_nil_r.
    repeat split; try done. set_solver.
  - cbn [loadItems]. rewrite Hc.
    set (st1 := withPmap _ st).
    destruct (emitValueChanged_spec reload (key c it) (property c it) st1 c)
      as (c1 & upd & evs1 & Hrun & Hsame1 & Hq1); [done|].
    rewrite Hrun. cbn [mbind Result_bind].
    set (st2 := mkBridge _ _ _ _ _ _).
    destruct (IH st2 c1 eq_refl)
      as (st' & c' & evs & Hrest & Hc' & Hsame & Hdom & Ha & Hn & He & Hv).
    assert (Hkeys : key c1 <$> its = key c <$> its).
    { destruct Hsame1 as [_ Hk]. apply list_fmap_ext. intros ? ? _. apply Hk. }
    rewrite Hkeys in Hdom, Hv.
    exists st', c', (ValueChanged (key c it) (property c it) :: evs1 ++ evs).
    split; [exact Hrest|]. split; [exact Hc'|].
    split; [by eapply sameItems_trans|].
    split.
    { rewrite Hdom. subst st2 st1. cbn. rewrite dom_insert_L. set_solver. }
    split; [by rewrite Ha|]. split; [by rewrite Hn|].
    split.
    { rewrite He. subst st2 st1. cbn. by rewrite <- app_assoc. }
    rewrite valueChanges_cons, valueChanges_app, Hq1, app_nil_l.
    by rewrite !fmap_cons, Hv.
Qed.
(** Every load adds the item keys and removes nothing. *)
Lemma loadConfig_keys (depth : nat) (option : LoadConfigOption)
      (st : State) (c : Skel) :
  config st = Some c ->
  exists (st' : State) (c' : Skel) (evs : list (Event Item)),
    loadConfig depth option st = Done st'
    /\ config st' = Some c'
    /\ sameItems c c'
    /\ dom (pmap st') = dom (pmap st) ∪ list_to_set (itemKeys c)
    /\ events st' = events st ++ evs
    /\ (valueChanges evs).*1 =
       match option with
       | EmitValueChanged => itemKeys c
       | DontEmitValueChanged => []
       end.
Proof.
  intros Hc. rewrite loadConfig_nested. unfold loadConfigIn. rewrite Hc.
  destruct option.
  - rewrite (loadItems_quiet _ c) by done.
    exists (withPmap
              (foldl (fun m it => <[key c it := property c it]> m)
                     (pmap st) (items c)) st), c, [].
    cbn [withPmap pmap config events]. rewrite app_nil_r.
    split; [done|]. split; [done|]. split; [apply sameItems_refl|].
    split; [apply dom_fill|]. by split.
  - destruct (loadItems_emit (nested depth) (items c) st c Hc)
      as (st' & c' & evs & Hrun & Hc' & Hsame & Hdom & _ & _ & He & Hv).
    by exists st', c', evs.
Qed.

(** C6.  After the first load, at construction, the key set of the map
    equals the set of item keys of the configuration.  Every load, the
    first one or a reload, and so every reload started by
    [configChanged], returns, adds the item keys to the map and
    removes none: the key set afterwards is the union of the key set
    before and the item keys.  No item key is missing, and the two
    sets are equal exactly when every key the map held before is an
    item key. *)
Theorem load_adds_the_item_keys (depth : nat) :
  (forall c : Skel,
     exists st : State,
       construct depth (Some c) = Done st
       /\ config st = Some c
       /\ dom (pmap st) = list_to_set (itemKeys c))
  /\ (forall (option : LoadConfigOption) (st : State) (c : Skel),
        config st = Some c ->
        exists (st' : State) (c' : Skel),
          loadConfig depth option st = Done st'
          /\ config st' = Some c'
          /\ itemKeys c' = itemKeys c
          /\ dom (pmap st') = dom (pmap st) ∪ list_to_set (itemKeys c')
          /\ (dom (pmap st') = list_to_set (itemKeys c') <->
              dom (pmap st) ⊆ list_to_set (itemKeys c')))
  /\ (forall (st : State) (c : Skel),
        config st = Some c ->
        updatingConfigValue st = false ->
        exists (st' : State) (c' : Skel),
          configChanged depth st = Done st'
          /\ config st' = Some c'
          /\ itemKeys c' = itemKeys c
          /\ dom (pmap st') = dom (pmap st) ∪ list_to_set (itemKeys c')
          /\ (dom (pmap st') = list_to_set (itemKeys c') <->
              dom (pmap st) ⊆ list_to_set (itemKeys c'))).
Proof.
  assert (Hload : forall (option : LoadConfigOption) (st : State) (c : Skel),
    config st = Some c ->
    exists (st' : State) (c' : Skel),
      loadConfig depth option st = Done st'
      /\ config st' = Some c'
      /\ itemKeys c' = itemKeys c
      /\ dom (pmap st') = dom (pmap st) ∪ list_to_set (itemKeys c')
      /\ (dom (pmap st') = list_to_set (itemKeys c') <->
          dom (pmap st) ⊆ list_to_set (itemKeys c'))).
  { intros option st c Hc.
    destruct (loadConfig_keys depth option st c Hc)
      as (st' & c' & evs & Hrun & Hc' & Hsame & Hdom & _).
    exists st', c'. rewrite (sameItems_keys _ _ Hsame), Hdom.
    repeat split; try done; set_solver. }
  split; [|split; [exact Hload|]].
  - intros c.
    eexists. split; [apply construct_run|]. cbn [pmap config].
    split; [reflexivity|].
    rewrite dom_fill, dom_empty_L. unfold itemKeys. set_solver.
  - intros st c Hc Hupd. unfold configChanged, configChangedSlot.
    cbn [record updatingConfigValue]. rewrite Hupd. cbn [negb].
    destruct (Hload EmitValueChanged (record ConfigChanged st) c)
      as (st' & c' & H); [by destruct st|].
    by exists st', c'.
Qed.
End Bridge.

(** *** The executable configuration is stable *)

#[global] Instance MemSkeleton_stable : StableItems MemSkeleton nat.
Proof.
  split.
  - intros i flag c. split; cbn.
    + by rewrite length_alter.
    + intros j. rewrite list_lookup_alter.
      destruct (decide (i = j)) as [->|]; [|done].
      by destruct (m_items c !! j).
  - intros i value c. split; cbn.
    + by rewrite length_alter.
    + intros j. rewrite list_lookup_alter.
      destruct (decide (i = j)) as [->|]; [|done].
      by destruct (m_items c !! j).
  - intros c. split; cbn.
    + by rewrite length_fmap.
    + intros j. rewrite list_lookup_fmap. by destruct (m_items c !! j).
  - intros c. split; cbn.
    + by rewrite length_fmap.
    + intros j. rewrite list_lookup_fmap. by destruct (m_items c !! j).
Qed.

(** *** Runs on the executable configuration *)


(** A key assigned by a script that names no item stays in the map
    through the next reload; the key sets differ. *)
Lemma foreign_key_survives_reload :
  exists (st0 st1 st2 : Bridge MemSkeleton nat) (c : MemSkeleton),
    construct 0 (Some demoConfig) = Done st0
    /\ write 0 "zz" (VInt 5) st0 = Done st1
    /\ configChanged 0 st1 = Done st2
    /\ config st2 = Some c
    /\ itemKeys c = ["a"; "b"]
    /\ pmap st2 !! "zz" = Some (VInt 5)
    /\ dom (pmap st2) <> list_to_set (itemKeys c).
Proof.
  assert (Hzz : forall (m : gmap string QVariant) (l : list string),
            m !! "zz" = Some (VInt 5) -> l = ["a"; "b"] ->
            dom m <> list_to_set l).
  { intros m l Hm -> Heq.
    assert (Hin : "zz" ∈ dom m) by (apply elem_of_dom; by eexists).
    rewrite Heq in Hin. set_solver. }
  eexists _, _, _, _.
  split; [vm_compute; reflexivity|].
  split; [vm_compute; reflexivity|].
  split; [vm_compute; reflexivity|].
  split; [vm_compute; reflexivity|].
  split; [vm_compute; reflexivity|].
  split; [vm_compute; reflexivity|].
  apply Hzz; vm_compute; reflexivity.
Qed.

(** Two items that share a key: the map holds the value of the second
    one under the key, which is not the value of the first. *)
Lemma shared_key_holds_the_last_value :
  exists st : Bridge MemSkeleton nat,
    construct 0 (Some sharedKeyConfig) = Done st
    /\ items sharedKeyConfig = [0%nat; 1%nat]
    /\ key sharedKeyConfig 0%nat = "a"
    /\ property sharedKeyConfig 0%nat = VInt 1
    /\ pmap st !! key sharedKeyConfig 0%nat = Some (VInt 2)
    /\ pmap st !! key sharedKeyConfig 0%nat
       <> Some (property sharedKeyConfig 0%nat).
Proof.
  eexists.
  split; [vm_compute; reflexivity|].
  split; [vm_compute; reflexivity|].
  split; [vm_compute; reflexivity|].
  split; [vm_compute; reflexivity|].
  split; [vm_compute; reflexivity|].
  vm_compute. discriminate.
Qed.

Lemma construction_mirrors_the_items_witness :
  exists st : Bridge MemSkeleton nat,
    construct 0 (Some demoConfig) = Done st
    /\ dom (pmap st) = list_to_set ["a"; "b"]
    /\ pmap st !! "a" = Some (VInt 1)
    /\ pmap st !! "b" = Some (VString "x")
    /\ events st = [].
Proof.
  assert (Hnd : NoDup (itemKeys demoConfig)).
  { change (NoDup ["a"; "b"]). repeat constructor; set_solver. }
  destruct (construction_mirrors_the_items 0 demoConfig)
    as (st & Hrun & _ & Hdom & _ & _ & Hown & Hev).
  exists st. split; [exact Hrun|]. split; [exact Hdom|].
  split; [|split; [|exact Hev]].
  - apply (Hown Hnd 0%nat). change (0%nat ∈ [0%nat; 1%nat]). set_solver.
  - apply (Hown Hnd 1%nat). change (1%nat ∈ [0%nat; 1%nat]). set_solver.
Defined.


Lemma load_adds_the_item_keys_witness :
  exists st : Bridge MemSkeleton nat,
    configChanged 0 demoBridge = Done st
    /\ dom (pmap st) = dom (pmap demoBridge) ∪ list_to_set ["a"; "b"].
Proof.
  destruct (load_adds_the_item_keys (Skel := MemSkeleton) 0)
    as (_ & _ & Hreload).
  destruct (Hreload demoBridge demoConfig eq_refl eq_refl)
    as (st & c & Hrun & _ & Hkeys & Hdom & _).
  exists st. split; [exact Hrun|].
  rewrite Hdom, Hkeys. reflexivity.
Defined.

Example null_config_immutability_query :
  (st ← construct 0 (None : option MemSkeleton); isImmutable "a" st)
  = NullPointerDereference.
Proof. reflexivity. Qed.
End ConfigPropertyMapProofs.

(* ================================================================== *)
(** * Further properties *)

(** ** The translation context *)

Module TranslationContextFacts.
Import TranslationContext.
Import TranslationContextProofs.

Lemma qstringEq_iff (a b : QString) :
  qstringEq a b = true <-> constData a = constData b.
Proof. unfold qstringEq. apply String.eqb_eq. Qed.

Lemma qstringEq_refl (a : QString) : qstringEq a a = true.
Proof. by apply qstringEq_iff. Qed.

Section Calls.
Variable toInt : string -> option Z.
Variable toString : KLocalizedString -> string.
Variables param1 param2 param3 param4 param5
          param6 param7 param8 param9 param10 : QString.

Local Abbreviation call f :=
  (f param1 param2 param3 param4 param5
     param6 param7 param8 param9 param10).


(** X2.  The domain enters a translation by its text alone: a null domain
    and an empty one give the same call, and so do any two domains that
    [QString::operator==] holds equal. *)
Theorem domain_counts_by_its_text (d d' context singular plural : QString) :
  qstringEq d d' = true ->
  call (i18n toString d singular) = call (i18n toString d' singular)
  /\ call (i18nc toString d context singular)
     = call (i18nc toString d' context singular)
  /\ call (i18np toInt toString d singular plural)
     = call (i18np toInt toString d' singular plural)
  /\ call (i18ncp toInt toString d context singular plural)
     = call (i18ncp toInt toString d' context singular plural).
Proof.
  intros Heq. apply qstringEq_iff in Heq.
  unfold i18n, i18nc, i18np, i18ncp. by rewrite Heq.
Qed.

(** X3.  Translating after [setDomain d] is translating in the domain [d],
    whatever the domain was before: when [setDomain] keeps the old member
    because it compares equal, the old member has the same text. *)
Theorem translation_follows_setDomain (d m_domain context singular plural : QString) :
  let stored := domain (fst (setDomain d m_domain)) in
  call (i18n toString stored singular) = call (i18n toString d singular)
  /\ call (i18nc toString stored context singular)
     = call (i18nc toString d context singular)
  /\ call (i18np toInt toString stored singular plural)
     = call (i18np toInt toString d singular plural)
  /\ call (i18ncp toInt toString stored context singular plural)
     = call (i18ncp toInt toString d context singular plural).
Proof.
  cbv zeta. unfold setDomain, domain.
  destruct (qstringEq m_domain d) eqn:Heq; cbn [fst]; [|done].
  apply qstringEq_iff in Heq.
  unfold i18n, i18nc, i18np, i18ncp. by rewrite Heq.
Qed.
End Calls.

(** X4.  [setDomain] emits [domainChanged], once and with the new domain,
    exactly when the text of the domain changes, and only then replaces
    the member.  Afterwards the member compares equal to the domain that
    was set, so setting it again does nothing.  A domain that differs from
    the member only by being null or empty is not stored. *)
Theorem setDomain_changes_on_new_text (d m_domain : QString) :
  (constData m_domain = constData d ->
   setDomain d m_domain = (m_domain, []))
  /\ (constData m_domain <> constData d ->
      setDomain d m_domain = (d, [DomainChanged d]))
  /\ qstringEq (domain (fst (setDomain d m_domain))) d = true
  /\ setDomain d (fst (setDomain d m_domain))
     = (fst (setDomain d m_domain), []).
Proof.
  unfold setDomain, domain.
  destruct (qstringEq m_domain d) eqn:Heq; cbn [fst].
  - pose proof (proj1 (qstringEq_iff _ _) Heq) as Htext.
    split; [done|]. split; [done|]. split; [done|]. by rewrite Heq.
  - assert (Htext : constData m_domain <> constData d).
    { intros H. apply qstringEq_iff in H. congruence. }
    split; [done|]. split; [done|].
    split; [apply qstringEq_refl|]. by rewrite qstringEq_refl.
Qed.

Lemma setDomain_changes_on_new_text_witness :
  setDomain (Some EmptyString) None = (None, [])
  /\ setDomain (Some "plasma") None = (Some "plasma", [DomainChanged (Some "plasma")]).
Proof.
  split.
  - destruct (setDomain_changes_on_new_text (Some EmptyString) None)
      as (Hsame & _).
    exact (Hsame eq_refl).
  - destruct (setDomain_changes_on_new_text (Some "plasma") None)
      as (_ & Hnew & _).
    apply Hnew. discriminate.
Defined.

Lemma domain_counts_by_its_text_witness :
  i18n toStringUntranslated None (Some "Hello %1") (Some "you")
       None None None None None None None None None
  = i18n toStringUntranslated (Some EmptyString) (Some "Hello %1") (Some "you")
         None None None None None None None None None.
Proof.
  exact (proj1 (domain_counts_by_its_text toIntDecimal toStringUntranslated
                  (Some "you") None None None None None None None None None
                  None (Some EmptyString) None (Some "Hello %1") None eq_refl)).
Defined.
End TranslationContextFacts.

(** ** The key sequence helper *)

Module KeySequenceHelperFacts.
Import KeySequenceHelper.
Import KeySequenceHelperProofs.

Lemma testFlag_implies_andFlag (flags flag : Z) :
  flag <> 0 -> testFlag flags flag = true -> andFlag flags flag = true.
Proof.
  unfold testFlag, andFlag. intros Hflag H.
  apply andb_true_iff in H as [H _]. apply Z.eqb_eq in H. rewrite H.
  by destruct (Z.eqb_spec flag 0).
Qed.

Lemma testFlag_standard_false (flags : Z) :
  testFlag flags StandardShortcuts = false ->
  andFlag flags StandardShortcuts = false.
Proof. by rewrite testFlag_andFlag. Qed.

(** Every action of the standard check is one of its own. *)
Lemma standard_check_actions (h : Host) (flags : Z) (seq : QKeySequence) :
  Forall (fun act => isStandardAction act = true)
         (actions (conflictWithStandardShortcuts h flags seq)).
Proof.
  unfold conflictWithStandardShortcuts, stealStandardShortcut.
  destruct (checkAgainstStandardShortcuts flags); cbn; [|constructor].
  destruct (find h seq =? AccelNone)%N; cbn; [by repeat constructor|].
  destruct (warningContinueCancel h _ _ _); cbn; by repeat constructor.
Qed.

(** The global check, on a build that has it and with its flag set. *)
Lemma conflictWithGlobalShortcuts_available (h : Host) (flags : Z)
      (seq : QKeySequence) :
  platform h = Unix ->
  andFlag flags GlobalShortcuts = true ->
  isGlobalShortcutAvailable h seq = true ->
  conflictWithGlobalShortcuts h flags seq
  = (false, [AskAvailable seq; StealShortcutSystemwide seq]).
Proof.
  intros Hos Hflag Hav. unfold conflictWithGlobalShortcuts.
  by rewrite Hos, Hflag, Hav.
Qed.

Lemma conflictWithGlobalShortcuts_flag_off (h : Host) (flags : Z)
      (seq : QKeySequence) :
  platform h = Unix ->
  andFlag flags GlobalShortcuts = false ->
  conflictWithGlobalShortcuts h flags seq = (false, []).
Proof.
  intros Hos Hflag. unfold conflictWithGlobalShortcuts.
  by rewrite Hos, Hflag.
Qed.

Lemma conflictWithGlobalShortcuts_windows (h : Host) (flags : Z)
      (seq : QKeySequence) :
  platform h = Windows ->
  conflictWithGlobalShortcuts h flags seq
  = (false,
     if contains "F12" (toString h seq)
     then [ErrorBox reservedMessage "Reserved Shortcut"] else []).
Proof.
  intros Hos. unfold conflictWithGlobalShortcuts. rewrite Hos.
  change (negb (GlobalShortcuts =? 0)) with true. cbn [andb].
  by destruct (contains "F12" (toString h seq)).
Qed.

(** Every action of the global check is one of its own, and at most one of
    them is a dialog. *)
Lemma global_check_actions (h : Host) (flags : Z) (seq : QKeySequence) :
  Forall (fun act => isGlobalAction act = true)
         (actions (conflictWithGlobalShortcuts h flags seq))
  /\ (length (List.filter isDialog
                     (actions (conflictWithGlobalShortcuts h flags seq)))
      <= 1)%nat.
Proof.
  destruct (platform h) eqn:Hos.
  - rewrite conflictWithGlobalShortcuts_windows by done.
    destruct (contains "F12" (toString h seq)); cbn; split;
      repeat constructor.
  - unfold conflictWithGlobalShortcuts. rewrite Hos. cbn.
    split; repeat constructor.
  - destruct (andFlag flags GlobalShortcuts) eqn:Hflag.
    + destruct (isGlobalShortcutAvailable h seq) eqn:Hav.
      * rewrite conflictWithGlobalShortcuts_available by done.
        cbn. split; repeat constructor.
      * rewrite conflictWithGlobalShortcuts_unavailable by done.
        cbv zeta. unfold registryQueries.
        destruct (nonEmpty _ || nonEmpty _); [cbn; split; repeat constructor|].
        destruct (nonEmpty _); [|cbn; split; repeat constructor].
        destruct (promptStealShortcutSystemwide h _ seq); cbn; split;
          repeat constructor.
    + rewrite conflictWithGlobalShortcuts_flag_off by done.
      cbn. split; repeat constructor.
Qed.

Lemma standard_check_dialogs (h : Host) (flags : Z) (seq : QKeySequence) :
  (length (List.filter isDialog
                  (actions (conflictWithStandardShortcuts h flags seq)))
   <= 1)%nat.
Proof.
  unfold conflictWithStandardShortcuts, stealStandardShortcut.
  destruct (checkAgainstStandardShortcuts flags); cbn; [|lia].
  destruct (find h seq =? AccelNone)%N; cbn; [lia|].
  destruct (warningContinueCancel h _ _ _); cbn; lia.
Qed.

(** The check as the two partial checks put together. *)
Lemma isKeySequenceAvailable_parts (h : Host) (flags : Z) (seq : QKeySequence) :
  seq <> [] ->
  let g := if testFlag flags GlobalShortcuts
           then conflictWithGlobalShortcuts h flags seq else (false, []) in
  let s := if testFlag flags StandardShortcuts
           then conflictWithStandardShortcuts h flags seq else (false, []) in
  isKeySequenceAvailable h flags seq
  = (negb (fst g || fst s), snd g ++ snd s).
Proof.
  intros Hseq. cbv zeta. unfold isKeySequenceAvailable.
  destruct seq as [|k seq']; [done|]. cbn [keySequenceIsEmpty].
  destruct (testFlag flags GlobalShortcuts),
           (testFlag flags StandardShortcuts);
    destruct (conflictWithGlobalShortcuts h flags (k :: seq')) as [g ga];
    destruct (conflictWithStandardShortcuts h flags (k :: seq')) as [s sa];
    unfold bind, ret; cbn [fst snd orb app];
    rewrite ?app_nil_r, ?orb_false_r; reflexivity.
Qed.

Lemma standard_is_not_global (act : Action) :
  isStandardAction act = true -> isGlobalAction act = false.
Proof. by destruct act. Qed.

Lemma global_is_not_standard (act : Action) :
  isGlobalAction act = true -> isStandardAction act = false.
Proof. by destruct act. Qed.

(** X5.  [setCheckAgainstShortcutTypes] stores the types it is given and
    emits [checkAgainstShortcutTypesChanged] on every call, also when the
    types are the ones already stored. *)
Theorem setCheckAgainstShortcutTypes_always_notifies (types current : Z) :
  setCheckAgainstShortcutTypes types current
  = (types, [CheckAgainstShortcutTypesChanged])
  /\ setCheckAgainstShortcutTypes current current
     = (current, [CheckAgainstShortcutTypesChanged]).
Proof.
  unfold setCheckAgainstShortcutTypes. split.
  - destruct (Z.eqb_spec current types) as [->|]; reflexivity.
  - by rewrite Z.eqb_refl.
Qed.

(** X6.  With neither check selected every key sequence is reported
    available and nothing is looked up, shown or stolen. *)
Theorem no_check_selected (h : Host) (flags : Z) (seq : QKeySequence) :
  testFlag flags GlobalShortcuts = false ->
  testFlag flags StandardShortcuts = false ->
  isKeySequenceAvailable h flags seq = (true, []).
Proof.
  intros Hg Hs. destruct seq as [|k seq']; [reflexivity|].
  rewrite isKeySequenceAvailable_parts by done. by rewrite Hg, Hs.
Qed.

Lemma no_check_selected_witness :
  isKeySequenceAvailable
    (tableHost Unix 3%N false [demoInfo] [demoInfo] [] Cancel false) 4 [67]
  = (true, []).
Proof. apply no_check_selected; reflexivity. Defined.

(** X7.  A check that is not selected leaves no trace: without the global
    flag the registry of global shortcuts is not queried, no shadowing
    box or steal prompt is shown and nothing is stolen; without the
    standard flag the standard shortcuts are not looked up and the
    reassignment prompt is not shown. *)
Theorem unselected_check_is_not_run (h : Host) (flags : Z) (seq : QKeySequence) :
  (testFlag flags GlobalShortcuts = false ->
   Forall (fun act => isGlobalAction act = false)
          (actions (isKeySequenceAvailable h flags seq)))
  /\ (testFlag flags StandardShortcuts = false ->
      Forall (fun act => isStandardAction act = false)
             (actions (isKeySequenceAvailable h flags seq))).
Proof.
  destruct seq as [|k seq']; [split; intros; constructor|].
  rewrite isKeySequenceAvailable_parts by done. cbv zeta.
  unfold actions. cbn [snd]. split; intros Hoff; rewrite Hoff; cbn [snd app].
  - destruct (testFlag flags StandardShortcuts); [|constructor].
    eapply Forall_impl; [apply standard_check_actions|].
    apply standard_is_not_global.
  - rewrite app_nil_r.
    destruct (testFlag flags GlobalShortcuts); [|constructor].
    eapply Forall_impl; [apply (proj1 (global_check_actions h flags _))|].
    apply global_is_not_standard.
Qed.

Lemma unselected_check_is_not_run_witness :
  Forall (fun act => isGlobalAction act = false)
         (actions (isKeySequenceAvailable
                     (tableHost Unix 3%N false [demoInfo] [] [] Cancel true)
                     1 [67])).
Proof.
  exact (proj1 (unselected_check_is_not_run
                  (tableHost Unix 3%N false [demoInfo] [] [] Cancel true)
                  1 [67]) eq_refl).
Defined.

(** X8.  On the builds without the registry the global check reports no
    conflict.  On Darwin it does nothing.  On Windows it shows the box
    about the reserved key when the text of the sequence contains [F12],
    and nothing otherwise; the sequence is not rejected for it: with the
    global check alone selected, a sequence with [F12] is reported
    available after the box. *)
Theorem builds_without_registry (h : Host) (flags : Z) (seq : QKeySequence) :
  (platform h = Darwin ->
   conflictWithGlobalShortcuts h flags seq = (false, []))
  /\ (platform h = Windows ->
      conflictWithGlobalShortcuts h flags seq
      = (false,
         if contains "F12" (toString h seq)
         then [ErrorBox reservedMessage "Reserved Shortcut"] else []))
  /\ (platform h = Windows ->
      seq <> [] ->
      testFlag flags GlobalShortcuts = true ->
      testFlag flags StandardShortcuts = false ->
      contains "F12" (toString h seq) = true ->
      isKeySequenceAvailable h flags seq
      = (true, [ErrorBox reservedMessage "Reserved Shortcut"])).
Proof.
  split; [|split].
  - intros Hos. unfold conflictWithGlobalShortcuts. by rewrite Hos.
  - apply conflictWithGlobalShortcuts_windows.
  - intros Hos Hseq Hg Hs Hf12.
    rewrite isKeySequenceAvailable_parts by done. rewrite Hg, Hs.
    rewrite conflictWithGlobalShortcuts_windows by done. by rewrite Hf12.
Qed.

Lemma builds_without_registry_witness :
  isKeySequenceAvailable (namedHost Windows "Ctrl+F12" 0%N Cancel) 2 [67]
  = (true, [ErrorBox reservedMessage "Reserved Shortcut"]).
Proof.
  destruct (builds_without_registry
              (namedHost Windows "Ctrl+F12" 0%N Cancel) 2 [67])
    as (_ & _ & Hwin).
  apply Hwin; [reflexivity | discriminate | reflexivity..].
Defined.

(** X9.  On a build with the registry and with the global check selected,
    a sequence that the registry reports available is stolen system-wide
    all the same, without any lookup or prompt, and does not conflict;
    so is a sequence reported unavailable for which the three lookups
    find nothing. *)
Theorem free_sequence_is_stolen_too (h : Host) (flags : Z) (seq : QKeySequence) :
  platform h = Unix ->
  andFlag flags GlobalShortcuts = true ->
  (isGlobalShortcutAvailable h seq = true ->
   conflictWithGlobalShortcuts h flags seq
   = (false, [AskAvailable seq; StealShortcutSystemwide seq]))
  /\ (isGlobalShortcutAvailable h seq = false ->
      globalShortcutsByKey h seq Equal = [] ->
      globalShortcutsByKey h seq Shadows = [] ->
      globalShortcutsByKey h seq Shadowed = [] ->
      conflictWithGlobalShortcuts h flags seq
      = (false, registryQueries seq ++ [StealShortcutSystemwide seq])).
Proof.
  intros Hos Hflag. split.
  - by apply conflictWithGlobalShortcuts_available.
  - intros Hav He Hs Hd.
    rewrite conflictWithGlobalShortcuts_unavailable by done.
    cbv zeta. by rewrite He, Hs, Hd.
Qed.

Lemma free_sequence_is_stolen_too_witness :
  conflictWithGlobalShortcuts
    (tableHost Unix 0%N true [] [] [] Cancel false) 3 [67]
  = (false, [AskAvailable [67]; StealShortcutSystemwide [67]]).
Proof.
  exact (proj1 (free_sequence_is_stolen_too
                  (tableHost Unix 0%N true [] [] [] Cancel false) 3 [67]
                  eq_refl eq_refl) eq_refl).
Defined.

(** X10.  The global check runs first and steals at once.  When the user
    agrees to take a sequence from a global action and then declines to
    reassign it from the standard shortcut it also matches, the sequence
    is reported unavailable, and the global shortcut has been stolen
    before the reassignment prompt was shown. *)
Theorem stolen_before_declined (h : Host) (flags : Z) (seq : QKeySequence) :
  platform h = Unix ->
  seq <> [] ->
  testFlag flags GlobalShortcuts = true ->
  testFlag flags StandardShortcuts = true ->
  isGlobalShortcutAvailable h seq = false ->
  globalShortcutsByKey h seq Shadows = [] ->
  globalShortcutsByKey h seq Shadowed = [] ->
  globalShortcutsByKey h seq Equal <> [] ->
  promptStealShortcutSystemwide h (globalShortcutsByKey h seq Equal) seq = true ->
  find h seq <> AccelNone ->
  reassignAnswer h seq = Cancel ->
  isKeySequenceAvailable h flags seq
  = (false,
     registryQueries seq ++
     [StealPrompt (globalShortcutsByKey h seq Equal) seq;
      StealShortcutSystemwide seq;
      FindStandard seq;
      WarningBox (reassignMessage h (find h seq) seq)
        "Conflict with Standard Application Shortcut" "Reassign"]).
Proof.
  intros Hos Hseq Hg Hs Hav Hsh Hsd Hoth Hsteal Hfind Hans.
  rewrite isKeySequenceAvailable_parts by done. rewrite Hg, Hs.
  rewrite conflictWithGlobalShortcuts_unavailable;
    [|done|by apply testFlag_implies_andFlag|done].
  cbv zeta. rewrite Hsh, Hsd. cbn [nonEmpty orb].
  rewrite (nonEmpty_true _ Hoth), Hsteal.
  rewrite conflictWithStandardShortcuts_found;
    [|by rewrite <- testFlag_andFlag|done].
  rewrite Hans. cbn [fst snd orb negb]. by rewrite <- app_assoc.
Qed.

Lemma stolen_before_declined_witness :
  result (isKeySequenceAvailable
            (tableHost Unix 3%N false [demoInfo] [] [] Cancel true) 3 [67])
  = false
  /\ In (StealShortcutSystemwide [67])
        (actions (isKeySequenceAvailable
                    (tableHost Unix 3%N false [demoInfo] [] [] Cancel true)
                    3 [67])).
Proof.
  pose (h := tableHost Unix 3%N false [demoInfo] [] [] Cancel true).
  assert (Hrun := stolen_before_declined h 3 [67] eq_refl).
  fold h. rewrite Hrun; try reflexivity; try discriminate.
  split; [reflexivity|]. cbn. tauto.
Defined.

(** X11.  A sequence that is no standard shortcut raises no reassignment
    prompt: the standard check looks it up and reports no conflict, and
    the availability of the sequence is what the global check makes of
    it. *)
Theorem no_standard_shortcut_no_prompt (h : Host) (flags : Z) (seq : QKeySequence) :
  seq <> [] ->
  testFlag flags StandardShortcuts = true ->
  find h seq = AccelNone ->
  let g := if testFlag flags GlobalShortcuts
           then conflictWithGlobalShortcuts h flags seq else (false, []) in
  conflictWithStandardShortcuts h flags seq = (false, [FindStandard seq])
  /\ isKeySequenceAvailable h flags seq
     = (negb (fst g), snd g ++ [FindStandard seq]).
Proof.
  intros Hseq Hs Hfind g.
  assert (Hstd : conflictWithStandardShortcuts h flags seq
                 = (false, [FindStandard seq])).
  { unfold conflictWithStandardShortcuts, checkAgainstStandardShortcuts.
    rewrite <- testFlag_andFlag, Hs, Hfind. reflexivity. }
  split; [exact Hstd|].
  rewrite isKeySequenceAvailable_parts by done. cbv zeta.
  rewrite Hs, Hstd. subst g. cbn [fst snd]. by rewrite orb_false_r.
Qed.

Lemma no_standard_shortcut_no_prompt_witness :
  isKeySequenceAvailable
    (tableHost Unix 0%N true [] [] [] Cancel false) 3 [67]
  = (true, [AskAvailable [67]; StealShortcutSystemwide [67]; FindStandard [67]]).
Proof.
  assert (Hseq : [67] <> ([] : QKeySequence)) by discriminate.
  exact (proj2 (no_standard_shortcut_no_prompt
                  (tableHost Unix 0%N true [] [] [] Cancel false) 3 [67]
                  Hseq eq_refl eq_refl)).
Defined.

(** X12.  One check of a sequence puts at most two dialogs before the
    user: at most one from the global check and at most one from the
    standard check. *)
Theorem at_most_two_dialogs (h : Host) (flags : Z) (seq : QKeySequence) :
  (length (List.filter isDialog
             (actions (conflictWithGlobalShortcuts h flags seq))) <= 1)%nat
  /\ (length (List.filter isDialog
                (actions (conflictWithStandardShortcuts h flags seq))) <= 1)%nat
  /\ (length (List.filter isDialog
                (actions (isKeySequenceAvailable h flags seq))) <= 2)%nat.
Proof.
  pose proof (proj2 (global_check_actions h flags seq)) as Hg.
  pose proof (standard_check_dialogs h flags seq) as Hs.
  split; [exact Hg|]. split; [exact Hs|].
  destruct seq as [|k seq']; [cbn; lia|].
  rewrite isKeySequenceAvailable_parts by done. cbv zeta.
  unfold actions in *. cbn [snd].
  rewrite List.filter_app, length_app.
  destruct (testFlag flags GlobalShortcuts),
           (testFlag flags StandardShortcuts); cbn [snd List.filter length];
    lia.
Qed.
End KeySequenceHelperFacts.

(** ** The configuration property map *)

Module ConfigPropertyMapFacts.
Import ConfigPropertyMap.
Import ConfigPropertyMapProofs.

Lemma flat_map_ext_elem {A B} (f g : A -> list B) (l : list A) :
  (forall a, a ∈ l -> f a = g a) -> flat_map f l = flat_map g l.
Proof.
  induction l as [|a l IH]; intros Hfg; [done|]. cbn.
  rewrite (Hfg a) by apply list_elem_of_here.
  rewrite IH; [done|]. intros b Hb. apply Hfg. by apply list_elem_of_further.
Qed.

Section Bridge.
Context {Skel Item : Type} `{!KCoreConfigSkeleton Skel Item}.

Local Abbreviation State := (Bridge Skel Item).

(** *** The guard keeps the slots from nesting *)

Lemma writeConfigValue_reload (r1 r2 : State -> Result State)
      (k : string) (value : QVariant) (st : State) :
  writeConfigValue r1 k value st = writeConfigValue r2 k value st
  /\ notTooDeep (writeConfigValue r1 k value st).
Proof.
  destruct (config st) as [c|] eqn:Hc.
  - destruct (findItem c k) as [item|] eqn:Hf.
    + by rewrite !(writeConfigValue_found _ k value st c item Hc Hf).
    + by rewrite !(writeConfigValue_missing _ k value st c Hc Hf).
  - unfold writeConfigValue. by rewrite Hc.
Qed.

Lemma loadItems_reload (r1 r2 : State -> Result State)
      (option : LoadConfigOption) (its : list Item) : forall st : State,
  loadItems r1 option its st = loadItems r2 option its st
  /\ notTooDeep (loadItems r1 option its st).
Proof.
  induction its as [|it its IH]; intros st; [done|].
  cbn [loadItems]. destruct (config st) as [c|]; [|done].
  destruct option; [apply IH|].
  unfold emitValueChanged.
  destruct (writeConfigValue_reload r1 r2 (key c it) (property c it)
              (record (ValueChanged (key c it) (property c it))
                 (withPmap (<[key c it:=property c it]> (pmap st)) st)))
    as [Heq Hnot].
  rewrite <- Heq.
  destruct (writeConfigValue r1 _ _ _) as [st'| |]; [apply IH|done|done].
Qed.

Lemma callSave_guarded (r1 r2 : State -> Result State) (st : State) :
  callSave r1 (withUpdating true st) = callSave r2 (withUpdating true st)
  /\ notTooDeep (callSave r1 (withUpdating true st)).
Proof.
  unfold callSave, configChangedSlot. cbn.
  destruct (config st) as [c|]; [|done]. by destruct (snd (save c)).
Qed.

Lemma writeItems_notTooDeep (its : list Item) : forall st : State,
  notTooDeep (writeItems its st).
Proof.
  induction its as [|it its IH]; intros st; [done|].
  cbn [writeItems]. unfold callConfig.
  destruct (config st) as [c|]; [|done]. cbn.
  apply IH.
Qed.

Lemma writeConfigIn_reload (r1 r2 : State -> Result State) (st : State) :
  writeConfigIn r1 st = writeConfigIn r2 st
  /\ notTooDeep (writeConfigIn r1 st).
Proof.
  unfold writeConfigIn. destruct (config st) as [c|]; [|done].
  pose proof (writeItems_notTooDeep (items c) st) as Hw.
  destruct (writeItems (items c) st) as [st1| |]; [|done|done]. cbn.
  destruct (autosave st1); [|done].
  destruct (callSave_guarded r1 r2 st1) as [Heq Hnot]. rewrite <- Heq.
  by destruct (callSave r1 _).
Qed.

Lemma loadConfig_depth (depth : nat) (option : LoadConfigOption) (st : State) :
  loadConfig depth option st = loadConfig 0 option st
  /\ notTooDeep (loadConfig depth option st).
Proof.
  rewrite !loadConfig_nested. unfold loadConfigIn.
  destruct (config st) as [c|]; [|done].
  apply loadItems_reload.
Qed.

(** X13.  The guard keeps the slots from nesting: whatever depth of
    nesting the run allows, also none, every operation of the bridge ends
    the same way and never for want of depth.  A reload is never started
    from inside a write-back or a save of the bridge. *)
Theorem slots_never_nest (depth : nat) (st : State) :
  (forall option,
     loadConfig depth option st = loadConfig 0 option st
     /\ notTooDeep (loadConfig depth option st))
  /\ (forall k value,
        valueChanged depth k value st = valueChanged 0 k value st
        /\ notTooDeep (valueChanged depth k value st))
  /\ (forall k input,
        write depth k input st = write 0 k input st
        /\ notTooDeep (write depth k input st))
  /\ (configChanged depth st = configChanged 0 st
      /\ notTooDeep (configChanged depth st))
  /\ (writeConfig depth st = writeConfig 0 st
      /\ notTooDeep (writeConfig depth st))
  /\ (destroy depth st = destroy 0 st
      /\ notTooDeep (destroy depth st))
  /\ (forall cfg : option Skel,
        construct depth cfg = construct 0 cfg
        /\ notTooDeep (construct depth cfg)).
Proof.
  split; [intros; apply loadConfig_depth|].
  split; [intros; apply writeConfigValue_reload|].
  split; [intros; apply writeConfigValue_reload|].
  split.
  { unfold configChanged, configChangedSlot.
    destruct (negb _); [apply loadConfig_depth | done]. }
  split; [apply writeConfigIn_reload|].
  split.
  { unfold destroy. destruct (autosave st); [apply writeConfigIn_reload | done]. }
  intros cfg. apply loadConfig_depth.
Qed.

(** X14.  A script assigning to a key that names no item of the
    configuration: the map takes the value, [valueChanged] is emitted, and
    the write-back is dropped in silence; the configuration, the guard
    and the settings stay as they were and no call reaches the
    configuration. *)
Theorem write_to_foreign_key (depth : nat) (st : State) (c : Skel)
        (k : string) (input : QVariant) :
  config st = Some c ->
  findItem c k = None ->
  write depth k input st
  = Done (mkBridge (<[k := updateValue k input]> (pmap st)) (Some c)
                   (updatingConfigValue st) (autosave st) (notify st)
                   (events st ++ [ValueChanged k (updateValue k input)])).
Proof.
  intros Hc Hf. unfold write, valueChanged, emitValueChanged.
  rewrite (writeConfigValue_missing _ _ _ _ c); [|by destruct st|done].
  destruct st; cbn in *. by subst.
Qed.

(** X15.  With a configuration at hand [isImmutable] answers for the item
    the key names, and [false] for a key that names none.  A write
    through the map does not ask: the value is written back to an
    immutable item like to any other. *)
Theorem immutable_item_is_still_written (depth : nat) (st : State) (c : Skel)
        (k : string) :
  config st = Some c ->
  (findItem c k = None -> isImmutable k st = Done false)
  /\ (forall item, findItem c k = Some item ->
        isImmutable k st = Done (itemIsImmutable c item)
        /\ forall input,
             exists st' : State,
               write depth k input st = Done st'
               /\ pmap st' = <[k := updateValue k input]> (pmap st)
               /\ config st' = Some (written st c item (updateValue k input))
               /\ In (CallSetProperty item (updateValue k input))
                     (events st')).
Proof.
  intros Hc. split.
  - intros Hf. unfold isImmutable. by rewrite Hc, Hf.
  - intros item Hf. split; [unfold isImmutable; by rewrite Hc, Hf|].
    intros input. unfold write, valueChanged, emitValueChanged.
    set (st1 := record _ _).
    rewrite (writeConfigValue_found (nested depth) k (updateValue k input)
               st1 c item) by (subst st1; by destruct st).
    eexists. split; [reflexivity|]. cbn [pmap config events].
    split; [reflexivity|]. split; [reflexivity|].
    apply in_or_app. right. unfold writeBackEvents. cbn. tauto.
Qed.
(** *** Loads and the map *)

Lemma applyChanges_app (m : gmap string QVariant)
      (l1 l2 : list (string * QVariant)) :
  applyChanges m (l1 ++ l2) = applyChanges (applyChanges m l1) l2.
Proof. apply foldl_app. Qed.

Lemma lookup_applyChanges_notin (l : list (string * QVariant)) (k : string) :
  forall m : gmap string QVariant,
  k ∉ l.*1 -> applyChanges m l !! k = m !! k.
Proof.
  induction l as [|[k' v] l IH]; intros m Hk; [done|].
  cbn in Hk. apply not_elem_of_cons in Hk as [Hne Hk].
  unfold applyChanges in *. cbn [foldl fst snd].
  rewrite IH by done. by rewrite lookup_insert_ne.
Qed.

(** One delivery of [valueChanged], whatever the configuration does. *)
Lemma emitValueChanged_form (reload : State -> Result State)
      (k : string) (value : QVariant) (st : State) (c : Skel) :
  config st = Some c ->
  exists (c' : Skel) (upd : bool) (evs : list (Event Item)),
    emitValueChanged reload k value st =
    Done (mkBridge (pmap st) (Some c') upd (autosave st) (notify st)
                   (events st ++ ValueChanged k value :: evs))
    /\ valueChanges evs = []
    /\ (autosave st = false -> Forall (fun e => isSaving e = false) evs).
Proof.
  intros Hc. unfold emitValueChanged.
  destruct st as [m cfg upd auto ntf evs]. cbn in Hc. subst cfg.
  set (st1 := record (ValueChanged k value) _).
  destruct (findItem c k) as [item|] eqn:Hf.
  - rewrite (writeConfigValue_found reload k value st1 c item eq_refl Hf).
    exists (written st1 c item value), false,
           (writeBackEvents st1 c item value).
    split; [|split; [apply valueChanges_writeBack|]].
    + subst st1. cbn [record pmap config autosave notify events].
      by rewrite <- app_assoc.
    + cbn [autosave]. intros ->. unfold writeBackEvents. subst st1. cbn.
      by repeat constructor.
  - rewrite (writeConfigValue_missing reload k value st1 c eq_refl Hf).
    exists c, upd, []. subst st1. cbn. by repeat split.
Qed.

Lemma loadItems_emit_map (reload : State -> Result State) (its : list Item) :
  forall (st : State) (c : Skel),
  config st = Some c ->
  exists (st' : State) (evs : list (Event Item)),
    loadItems reload EmitValueChanged its st = Done st'
    /\ is_Some (config st')
    /\ events st' = events st ++ evs
    /\ pmap st' = applyChanges (pmap st) (valueChanges evs)
    /\ length (valueChanges evs) = length its
    /\ autosave st' = autosave st /\ notify st' = notify st
    /\ (autosave st = false -> Forall (fun e => isSaving e = false) evs).
Proof.
  induction its as [|it its IH]; intros st c Hc.
  - exists st, []. cbn. rewrite app_nil_r. rewrite Hc. by repeat split.
  - cbn [loadItems]. rewrite Hc.
    set (st1 := withPmap _ st).
    destruct (emitValueChanged_form reload (key c it) (property c it) st1 c)
      as (c1 & upd & evs1 & Hrun & Hq1 & Hs1); [done|].
    rewrite Hrun. cbn [mbind Result_bind].
    set (st2 := mkBridge _ _ _ _ _ _).
    destruct (IH st2 c1 eq_refl)
      as (st' & evs & Hrest & Hc' & He & Hm & Hlen & Ha & Hn & Hs).
    exists st', (ValueChanged (key c it) (property c it) :: evs1 ++ evs).
    split; [exact Hrest|]. split; [exact Hc'|].
    split.
    { rewrite He. subst st2 st1. cbn. by rewrite <- app_assoc. }
    split.
    { rewrite Hm. subst st2 st1. cbn [pmap withPmap].
      by rewrite valueChanges_cons, valueChanges_app, Hq1. }
    split.
    { rewrite valueChanges_cons, valueChanges_app, Hq1. cbn. by rewrite Hlen. }
    split; [by rewrite Ha|]. split; [by rewrite Hn|].
    intros Hoff. constructor; [done|]. apply Forall_app. split.
    + apply Hs1. by subst st1.
    + apply Hs. by subst st2 st1.
Qed.

(** X16.  What a reload announces is what the map then holds: the map
    after a reload is the map before with the announced changes applied
    in order, one announcement for each item.  The same holds for the
    reload that an external [configChanged] starts. *)
Theorem reload_announces_the_map (depth : nat) (st : State) (c : Skel) :
  config st = Some c ->
  (exists (st' : State) (evs : list (Event Item)),
     loadConfig depth EmitValueChanged st = Done st'
     /\ events st' = events st ++ evs
     /\ pmap st' = applyChanges (pmap st) (valueChanges evs)
     /\ length (valueChanges evs) = length (items c))
  /\ (updatingConfigValue st = false ->
      exists (st' : State) (evs : list (Event Item)),
        configChanged depth st = Done st'
        /\ events st' = events st ++ ConfigChanged :: evs
        /\ pmap st' = applyChanges (pmap st) (valueChanges evs)
        /\ length (valueChanges evs) = length (items c)).
Proof.
  intros Hc. split.
  - rewrite loadConfig_nested. unfold loadConfigIn. rewrite Hc.
    destruct (loadItems_emit_map (nested depth) (items c) st c Hc)
      as (st' & evs & Hrun & _ & He & Hm & Hlen & _).
    by exists st', evs.
  - intros Hupd. unfold configChanged, configChangedSlot.
    cbn [record updatingConfigValue]. rewrite Hupd. cbn [negb].
    rewrite loadConfig_nested. unfold loadConfigIn.
    cbn [record config]. rewrite Hc.
    destruct (loadItems_emit_map (nested depth) (items c)
                (record ConfigChanged st) c)
      as (st' & evs & Hrun & _ & He & Hm & Hlen & _); [by destruct st|].
    exists st', evs. split; [exact Hrun|].
    split; [|by split].
    rewrite He. cbn [record events]. by rewrite <- app_assoc.
Qed.

(** The loop of [writeConfig], whatever the configuration does. *)
Lemma writeItems_form (st0 : State) (its : list Item) : forall st : State,
  is_Some (config st) ->
  pmap st = pmap st0 -> notify st = notify st0 ->
  exists (st' : State) (evs : list (Event Item)),
    writeItems its st = Done st'
    /\ is_Some (config st')
    /\ pmap st' = pmap st0
    /\ updatingConfigValue st' = updatingConfigValue st
    /\ autosave st' = autosave st /\ notify st' = notify st0
    /\ events st' = events st ++ evs
    /\ Forall (fun e => isSaving e = false) evs
    /\ valueChanges evs = [].
Proof.
  induction its as [|it its IH]; intros st [c Hc] Hm Hn.
  - exists st, []. cbn. rewrite app_nil_r. by repeat split.
  - destruct st as [m cfg upd auto ntf evs0]. cbn in Hc, Hm, Hn. subst cfg.
    cbn [writeItems]. unfold callConfig, record, withConfig, writeFlags.
    cbn [mbind Result_bind config pmap updatingConfigValue autosave notify
         events].
    match goal with |- context [writeItems its ?s] => set (st2 := s) end.
    destruct (IH st2) as (st' & evs & Hrun & Hc' & Hm' & Hu & Ha & Hn' & He & Hs & Hq);
      [by eexists | done | done |].
    eexists st', (_ :: _ :: evs).
    split; [exact Hrun|]. split; [exact Hc'|]. split; [exact Hm'|].
    split; [exact Hu|]. split; [exact Ha|]. split; [exact Hn'|].
    split.
    { rewrite He. subst st2. cbn [events]. by rewrite <- !app_assoc. }
    split; [by repeat constructor|done].
Qed.

(** X17.  With autosave off nothing is saved or read again: a write
    through the map, a load and [writeConfig] return without a call of
    [save()] or [read()], leave autosave off, and the destructor does
    nothing at all, so that the values in the map are not handed to the
    items. *)
Theorem autosave_off_never_saves (depth : nat) (st : State) (c : Skel) :
  config st = Some c ->
  autosave st = false ->
  (forall k input,
     exists (st' : State) (evs : list (Event Item)),
       write depth k input st = Done st'
       /\ events st' = events st ++ evs
       /\ Forall (fun e => isSaving e = false) evs
       /\ autosave st' = false)
  /\ (forall option,
        exists (st' : State) (evs : list (Event Item)),
          loadConfig depth option st = Done st'
          /\ events st' = events st ++ evs
          /\ Forall (fun e => isSaving e = false) evs
          /\ autosave st' = false)
  /\ (exists (st' : State) (evs : list (Event Item)),
        writeConfig depth st = Done st'
        /\ events st' = events st ++ evs
        /\ Forall (fun e => isSaving e = false) evs
        /\ autosave st' = false)
  /\ destroy depth st = Done st.
Proof.
  intros Hc Hoff. split; [|split; [|split]].
  - intros k input. unfold write, valueChanged.
    set (st1 := withPmap _ st).
    destruct (emitValueChanged_form (nested depth) k (updateValue k input) st1 c)
      as (c' & upd & evs & Hrun & _ & Hs); [done|].
    rewrite Hrun. eexists _, (_ :: evs). split; [reflexivity|].
    cbn [events autosave]. subst st1. cbn [withPmap events autosave].
    split; [reflexivity|]. split; [|done].
    constructor; [done|]. by apply Hs.
  - intros option. rewrite loadConfig_nested. unfold loadConfigIn. rewrite Hc.
    destruct option.
    + rewrite (loadItems_quiet _ c) by done.
      eexists _, []. split; [reflexivity|]. cbn. rewrite app_nil_r.
      by repeat split.
    + destruct (loadItems_emit_map (nested depth) (items c) st c Hc)
        as (st' & evs & Hrun & _ & He & _ & _ & Ha & _ & Hs).
      exists st', evs. split; [exact Hrun|]. split; [exact He|].
      split; [by apply Hs | by rewrite Ha].
  - unfold writeConfig, writeConfigIn. rewrite Hc.
    destruct (writeItems_form st (items c) st)
      as (st' & evs & Hrun & _ & _ & _ & Ha & _ & He & Hs & _);
      [by eexists | done | done |].
    rewrite Hrun. cbn [mbind Result_bind]. rewrite Ha, Hoff.
    exists st', evs. by rewrite Ha.
  - unfold destroy. by rewrite Hoff.
Qed.

Context `{!StableItems Skel Item}.

(** The loop of [writeConfig] over a configuration whose items stay. *)
Lemma writeItems_events (st0 : State) (c : Skel) (its : list Item) :
  forall (st : State) (cur : Skel),
  config st = Some cur -> sameItems c cur ->
  pmap st = pmap st0 -> notify st = notify st0 ->
  exists (st' : State) (c' : Skel),
    writeItems its st = Done st'
    /\ config st' = Some c' /\ sameItems c c'
    /\ pmap st' = pmap st0
    /\ updatingConfigValue st' = updatingConfigValue st
    /\ autosave st' = autosave st /\ notify st' = notify st0
    /\ events st' = events st ++ flat_map (writeItemEvents st0 c) its.
Proof.
  induction its as [|it its IH]; intros st cur Hc Hsame Hm Hn.
  - exists st, cur. cbn [writeItems flat_map]. rewrite app_nil_r.
    split; [reflexivity|]. split; [exact Hc|]. split; [exact Hsame|].
    by repeat split.
  - destruct st as [m cfg upd auto ntf evs0]. cbn in Hc, Hm, Hn. subst cfg.
    cbn [writeItems]. unfold callConfig, record, withConfig, writeFlags.
    cbn [mbind Result_bind config pmap updatingConfigValue autosave notify
         events].
    match goal with |- context [writeItems its ?s] => set (st2 := s) end.
    assert (Hsame1 : sameItems c (setWriteFlags it (if ntf then Notify else Normal) cur)).
    { eapply sameItems_trans; [exact Hsame | apply setWriteFlags_same]. }
    edestruct (IH st2) as (st' & c' & Hrun & Hc' & Hsame' & Hm' & Hu & Ha & Hn' & He);
      [reflexivity | | done | done |].
    { eapply sameItems_trans; [exact Hsame1 | apply setProperty_same]. }
    exists st', c'.
    split; [exact Hrun|]. split; [exact Hc'|]. split; [exact Hsame'|].
    split; [exact Hm'|]. split; [exact Hu|]. split; [exact Ha|].
    split; [exact Hn'|].
    rewrite He. subst st2. cbn [events flat_map].
    unfold writeItemEvents at 2, writeFlags. rewrite <- Hn, <- Hm.
    rewrite (proj2 Hsame1 it). by rewrite <- !app_assoc.
Qed.

(** [writeConfig] run on a configuration at hand. *)
Lemma writeConfig_run (depth : nat) (st : State) (c : Skel) :
  config st = Some c ->
  exists cW : Skel,
    sameItems c cW
    /\ writeConfig depth st
       = Done (mkBridge (pmap st)
                 (Some (if autosave st then fst (save cW) else cW))
                 (if autosave st then false else updatingConfigValue st)
                 (autosave st) (notify st)
                 (events st ++ flat_map (writeItemEvents st c) (items c)
                    ++ (if autosave st then saveEvents cW else []))).
Proof.
  intros Hc. unfold writeConfig, writeConfigIn. rewrite Hc.
  destruct (writeItems_events st c (items c) st c Hc (sameItems_refl c))
    as (st' & cW & Hrun & Hc' & Hsame & Hm & Hu & Ha & Hn & He); [done..|].
  exists cW. split; [exact Hsame|]. rewrite Hrun. cbn [mbind Result_bind].
  destruct st' as [m' cfg' upd' auto' ntf' evs']. cbn in *. subst.
  destruct (autosave st); [|by rewrite app_nil_r].
  unfold callSave, configChangedSlot, saveEvents, record, withConfig,
    withUpdating. cbn.
  destruct (snd (save cW)); cbn; by rewrite <- !app_assoc.
Qed.

(** X18.  [writeConfig] hands every item, in the order of [items()], the
    write flags and the value the map holds under the key of the item,
    the invalid variant when the map has no such key.  With autosave it
    then saves, under the guard: the [configChanged] of that save starts
    no reload, and the guard is clear afterwards.  The map is not
    changed and no [valueChanged] is emitted. *)
Theorem writeConfig_hands_over_the_map (depth : nat) (st : State) (c : Skel) :
  config st = Some c ->
  exists (st' : State) (cW : Skel),
    writeConfig depth st = Done st'
    /\ sameItems c cW
    /\ pmap st' = pmap st
    /\ autosave st' = autosave st /\ notify st' = notify st
    /\ valueChanges (drop (length (events st)) (events st')) = []
    /\ (autosave st = false ->
        config st' = Some cW
        /\ updatingConfigValue st' = updatingConfigValue st
        /\ events st'
           = events st ++ flat_map (writeItemEvents st c) (items c))
    /\ (autosave st = true ->
        config st' = Some (fst (save cW))
        /\ updatingConfigValue st' = false
        /\ events st'
           = events st ++ flat_map (writeItemEvents st c) (items c)
               ++ saveEvents cW).
Proof.
  intros Hc. destruct (writeConfig_run depth st c Hc) as (cW & Hsame & Hrun).
  eexists _, cW. split; [exact Hrun|]. cbn [pmap config autosave notify
    updatingConfigValue events].
  split; [exact Hsame|]. split; [reflexivity|]. split; [reflexivity|].
  split; [reflexivity|]. split.
  { rewrite drop_app_length, valueChanges_app.
    assert (Hitems : forall its : list Item,
              valueChanges (flat_map (writeItemEvents st c) its) = []).
    { induction its as [|it its IH]; [done|]. cbn. exact IH. }
    rewrite Hitems. unfold saveEvents.
    destruct (autosave st); [|done]. by destruct (snd (save cW)). }
  split; intros ->; by rewrite ?app_nil_r.
Qed.

(** X19.  Destroying the map right after it was constructed over a
    configuration with pairwise distinct keys hands every item back the
    value it had, with the normal write flags, and saves once. *)
Theorem construct_then_destroy (depth : nat) (c : Skel) :
  NoDup (itemKeys c) ->
  exists (st st' : State) (cW : Skel),
    construct depth (Some c) = Done st
    /\ destroy depth st = Done st'
    /\ sameItems c cW
    /\ pmap st' = pmap st
    /\ events st'
       = flat_map (fun item => [CallSetWriteFlags item Normal;
                                CallSetProperty item (property c item)])
                  (items c)
         ++ saveEvents cW.
Proof.
  intros Hnd.
  pose (st := mkBridge (Item := Item)
                (foldl (fun m item => <[key c item := property c item]> m)
                       (∅ : gmap string QVariant) (items c))
                (Some c) false true false []).
  destruct (writeConfig_run depth st c eq_refl) as (cW & Hsame & Hrun).
  assert (Hev : flat_map (writeItemEvents st c) (items c)
                = flat_map (fun item => [CallSetWriteFlags item Normal;
                                         CallSetProperty item (property c item)])
                           (items c)).
  { apply flat_map_ext_elem. intros item Hin. unfold writeItemEvents.
    change (writeFlags st) with Normal.
    change (pmap st) with
      (foldl (fun m item => <[key c item := property c item]> m)
             (∅ : gmap string QVariant) (items c)).
    by rewrite (lookup_fill_NoDup (key c) (property c)). }
  rewrite Hev in Hrun.
  change (autosave st) with true in Hrun. cbn match in Hrun.
  change (events st) with (@nil (Event Item)) in Hrun.
  rewrite app_nil_l in Hrun.
  eexists st, _, cW. split; [apply construct_run|].
  split; [unfold destroy; change (autosave st) with true; exact Hrun|].
  split; [exact Hsame|]. by split.
Qed.

(** X20.  A load leaves alone what is not an item: a key of the map that
    is the key of no item keeps its value through the first load and
    through every reload, and the settings autosave and notify are not
    changed by a load. *)
Theorem load_keeps_foreign_keys (depth : nat) (option : LoadConfigOption)
        (st : State) (c : Skel) (k : string) :
  config st = Some c ->
  k ∉ itemKeys c ->
  exists st' : State,
    loadConfig depth option st = Done st'
    /\ pmap st' !! k = pmap st !! k
    /\ autosave st' = autosave st
    /\ notify st' = notify st.
Proof.
  intros Hc Hk. rewrite loadConfig_nested. unfold loadConfigIn. rewrite Hc.
  destruct option.
  - rewrite (loadItems_quiet _ c) by done. eexists. split; [reflexivity|].
    cbn. split; [|done].
    by apply (lookup_fill_notin (key c) (property c)).
  - destruct (loadItems_emit_map (nested depth) (items c) st c Hc)
      as (st' & evs & Hrun & _ & He & Hm & _ & Ha & Hn & _).
    destruct (loadItems_emit (nested depth) (items c) st c Hc)
      as (st2 & c2 & evs2 & Hrun2 & _ & _ & _ & _ & _ & He2 & Hv2).
    rewrite Hrun in Hrun2. injection Hrun2 as <-.
    rewrite He in He2. apply app_inv_head in He2. subst evs2.
    exists st'. split; [exact Hrun|]. split; [|by split].
    rewrite Hm. apply lookup_applyChanges_notin. by rewrite Hv2.
Qed.
End Bridge.

(** *** Runs on the executable configuration *)

Lemma write_to_foreign_key_witness :
  exists st : Bridge MemSkeleton nat,
    write 0 "zz" (VInt 5) demoBridge = Done st
    /\ config st = Some demoConfig
    /\ events st = [ValueChanged "zz" (VInt 5)].
Proof.
  assert (Hf : findItem demoConfig "zz" = None) by (vm_compute; reflexivity).
  eexists. split; [exact (write_to_foreign_key 0 demoBridge demoConfig "zz"
                            (VInt 5) eq_refl Hf)|].
  by split.
Defined.

Lemma immutable_item_is_still_written_witness :
  isImmutable "a" lockedBridge = Done true
  /\ exists st : Bridge MemSkeleton nat,
       write 0 "a" (VInt 7) lockedBridge = Done st
       /\ In (CallSetProperty 0%nat (VInt 7)) (events st).
Proof.
  assert (Hf : findItem lockedConfig "a" = Some 0%nat)
    by (vm_compute; reflexivity).
  destruct (immutable_item_is_still_written 0 lockedBridge lockedConfig "a"
              eq_refl) as (_ & Hitem).
  destruct (Hitem 0%nat Hf) as (Himm & Hwrite).
  split; [exact Himm|].
  destruct (Hwrite (VInt 7)) as (st & Hrun & _ & _ & Hin).
  by exists st.
Defined.

Lemma reload_announces_the_map_witness :
  exists (st : Bridge MemSkeleton nat) (evs : list (Event nat)),
    configChanged 0 demoBridge = Done st
    /\ pmap st = applyChanges (pmap demoBridge) (valueChanges evs)
    /\ length (valueChanges evs) = 2%nat.
Proof.
  destruct (reload_announces_the_map 0 demoBridge demoConfig eq_refl)
    as (_ & Hreload).
  destruct (Hreload eq_refl) as (st & evs & Hrun & _ & Hm & Hlen).
  by exists st, evs.
Defined.

Lemma autosave_off_never_saves_witness :
  destroy 0 (setAutosave false demoBridge) = Done (setAutosave false demoBridge).
Proof.
  exact (proj2 (proj2 (proj2
           (autosave_off_never_saves 0 (setAutosave false demoBridge)
              demoConfig eq_refl eq_refl)))).
Defined.

Lemma writeConfig_hands_over_the_map_witness :
  exists st : Bridge MemSkeleton nat,
    writeConfig 0 demoBridge = Done st
    /\ pmap st = pmap demoBridge
    /\ updatingConfigValue st = false.
Proof.
  destruct (writeConfig_hands_over_the_map 0 demoBridge demoConfig eq_refl)
    as (st & cW & Hrun & _ & Hm & _ & _ & _ & _ & Hon).
  destruct (Hon eq_refl) as (_ & Hupd & _).
  by exists st.
Defined.

Lemma construct_then_destroy_witness :
  exists st st' : Bridge MemSkeleton nat,
    construct 0 (Some demoConfig) = Done st
    /\ destroy 0 st = Done st'
    /\ pmap st' = pmap st.
Proof.
  assert (Hnd : NoDup (itemKeys demoConfig)).
  { change (NoDup ["a"; "b"]). repeat constructor; set_solver. }
  destruct (construct_then_destroy 0 demoConfig Hnd)
    as (st & st' & cW & Hc & Hd & _ & Hm & _).
  by exists st, st'.
Defined.

Lemma load_keeps_foreign_keys_witness :
  exists st : Bridge MemSkeleton nat,
    loadConfig 0 EmitValueChanged demoBridge = Done st
    /\ pmap st !! "zz" = None.
Proof.
  assert (Hk : "zz" ∉ itemKeys demoConfig).
  { change ("zz" ∉ ["a"; "b"]). set_solver. }
  destruct (load_keeps_foreign_keys 0 EmitValueChanged demoBridge demoConfig
              "zz" eq_refl Hk)
    as (st & Hrun & Hlook & _).
  exists st. split; [exact Hrun|]. rewrite Hlook. reflexivity.
Defined.
End ConfigPropertyMapFacts.
